(** * Group range search benchmark (road/spatialgrange.cc)

    A shallow embedding of the benchmark driver [main] of
    [src/road/spatialgrange.cc] and of the collaborators it calls, with the
    properties of the page-access estimator, the workload sampler, the object
    loader, the query loop and the final report.

    Conventions.  A C++ [int] is a [Z] with the 32-bit wrap-around written
    out ([wrap32]); a [float] is an IEEE 754 binary32 value and a [double] a
    binary64 value, both as [spec_float] with the rounding operations of
    [SpecFloat]; a loop that the source does not bound runs on fuel. *)

From Stdlib Require Import Ascii String.
From Stdlib Require Import ZArith List Lia Bool Permutation FinFun.
From Stdlib Require Import Floats.SpecFloat.
Import ListNotations.

Set Implicit Arguments.

(** ** The page-access estimator [IOMeasure::pagelru] *)

Abbreviation PageId := Z (only parsing).

Module IOMeasure.

Definition distinct_count (l : list PageId) : nat :=
  length (nodup Z.eq_dec l).

(** Modelled from the spec: the state that the estimator of section 4.2
    keeps while it passes over the trace ([iomeasure.cc] is not among the
    sources): the current trace position, the position of the most recent
    occurrence of every page seen so far, the entries consumed so far and one
    hit counter per capacity. *)
Record est_state := mk_est {
  now : nat;
  last_seen : PageId -> option nat;
  seen : list PageId;
  counts : list nat
}.

(** The entries strictly between position [prev] and the current position. *)
Definition window (st : est_state) (prev : nat) : list PageId :=
  firstn (now st - prev - 1) (skipn (S prev) (seen st)).

(** One more hit for every capacity that exceeds the stack distance [d]. *)
Definition credit (caps : list nat) (d : nat) (cs : list nat) : list nat :=
  map (fun cn => if Nat.ltb d (fst cn) then S (snd cn) else snd cn)
      (combine caps cs).

(** Modelled from the spec: one trace entry in the estimator of section 4.2.
    A page with no prior occurrence is a miss at every capacity; otherwise
    its stack distance is the number of distinct pages in the window since
    its previous occurrence.  Either way the page's most recent occurrence
    becomes the current position. *)
Definition est_step (caps : list nat) (st : est_state) (p : PageId) : est_state :=
  {| now := S (now st);
     last_seen := fun q => if Z.eqb q p then Some (now st) else last_seen st q;
     seen := seen st ++ [p];
     counts := match last_seen st p with
               | None => counts st
               | Some prev => credit caps (distinct_count (window st prev)) (counts st)
               end |}.

Definition est_init (caps : list nat) : est_state :=
  {| now := 0; last_seen := fun _ => None; seen := [];
     counts := map (fun _ => 0) caps |}.

Definition est_run (caps : list nat) (T : list PageId) : est_state :=
  fold_left (est_step caps) T (est_init caps).

(** Modelled from the spec: the multi-capacity LRU estimator of section 4.2
    (the body of [IOMeasure::pagelru] lives in [iomeasure.cc], which is not
    among the sources).  One pass over the trace keeps, per page, the
    position of its most recent occurrence; a repeated access has stack
    distance [d] = the number of distinct pages referenced strictly between
    the previous occurrence and now, and counts as a hit for every capacity
    [c] with [d < c]; a first access is a miss at every capacity. *)
Definition estimate (caps : list nat) (T : list PageId) : list nat :=
  counts (est_run caps T).

Definition hitCount (T : list PageId) (c : nat) : nat :=
  hd 0 (estimate [c] T).

Inductive lru_error := CapacityError.

(** Modelled from the spec: [IOMeasure::pagelru(history, pagesize, numpage)],
    declared in [iomeasure.h] (absent).  The spec gives the page size no role
    in the estimator: the history already holds page identifiers.  A
    non-positive capacity is a [CapacityError]. *)
Definition pagelru (history : list PageId) (pagesize numpage : Z) : lru_error + Z :=
  if (numpage <=? 0)%Z then inl CapacityError
  else inr (Z.of_nat (hitCount history (Z.to_nat numpage))).

(** *** The brute-force reference: an explicit LRU cache *)

(** Modelled from the spec: one access to an explicit LRU cache of capacity
    [c], the list of resident pages with the most recently used first.  A
    resident page is a hit and moves to the front; any other page is a miss
    and enters at the front, pushing out the least recently used page when
    the cache is full. *)
Definition lru_access (c : nat) (cache : list PageId) (p : PageId)
  : bool * list PageId :=
  if in_dec Z.eq_dec p cache
  then (true, p :: remove Z.eq_dec p cache)
  else (false,
        p :: (if Nat.ltb (length cache) c then cache else removelast cache)).

Fixpoint lru_replay (c : nat) (cache : list PageId) (T : list PageId) : nat :=
  match T with
  | [] => 0
  | p :: T' =>
      let (hit, cache') := lru_access c cache p in
      (if hit then 1 else 0) + lru_replay c cache' T'
  end.

(** Modelled from the spec: the reference of the differential test, which
    replays the trace through an explicit LRU cache of one capacity. *)
Definition brute_force_hits (T : list PageId) (c : nat) : nat :=
  lru_replay c [] T.

(** The unbounded recency stack after a trace: every page seen, most recent
    first. *)
Definition recency (T : list PageId) : list PageId :=
  fold_left (fun s p => p :: remove Z.eq_dec p s) T [].

(** What the estimator knows after it has consumed [T]: its position, the
    entries, and where each page occurred last. *)
Definition tracks (st : est_state) (T : list PageId) : Prop :=
  now st = length T /\ seen st = T /\
  forall p, match last_seen st p with
            | None => ~ In p T
            | Some q => exists l1 l2,
                T = l1 ++ p :: l2 /\ length l1 = q /\ ~ In p l2
            end.

End IOMeasure.

(** ** Machine integers, faults and floats *)

Module Machine.
Local Open Scope Z_scope.

Definition INT_MIN : Z := -2147483648.
Definition INT_MAX : Z := 2147483647.

(** Two's complement wrap-around of a 32-bit [int]. *)
Definition wrap32 (z : Z) : Z := (z + 2147483648) mod 4294967296 - 2147483648.

Definition add32 (a b : Z) : Z := wrap32 (a + b).

(** The ways a run can stop other than by returning. *)
Inductive fault :=
| OutOfBounds      (* a store past the end of [src] or [rng] *)
| DivideByZero     (* an integer division by zero *)
| DivideOverflow   (* the quotient of the most negative [int] by -1 *)
| NotFound         (* [Graph::getNode] on an unknown node *)
| Capacity.        (* [pagelru] on a non-positive capacity *)

Inductive outcome (A : Type) :=
| Done (a : A)
| Fault (f : fault)
| OutOfFuel.

Arguments Done {A} a.
Arguments Fault {A} f.
Arguments OutOfFuel {A}.

Definition bind {A B : Type} (m : outcome A) (k : A -> outcome B) : outcome B :=
  match m with
  | Done a => k a
  | Fault f => Fault f
  | OutOfFuel => OutOfFuel
  end.

(** The signed division of two [int]s: truncation toward zero; a zero
    divisor traps, and so does the one quotient that does not fit. *)
Definition int_div (a b : Z) : outcome Z :=
  if b =? 0 then Fault DivideByZero
  else if (a =? INT_MIN) && (b =? -1) then Fault DivideOverflow
  else Done (Z.quot a b).

(** IEEE 754 binary32, the C++ [float]. *)
Module F32.
Definition prec : Z := 24.
Definition emax : Z := 128.
Definition of_int (z : Z) : spec_float := binary_normalize prec emax z 0 false.
Definition add : spec_float -> spec_float -> spec_float := SFadd prec emax.
Definition mul : spec_float -> spec_float -> spec_float := SFmul prec emax.
Definition div : spec_float -> spec_float -> spec_float := SFdiv prec emax.
(** [0.1f], the float nearest to one tenth. *)
Definition tenth : spec_float := div (of_int 1) (of_int 10).
End F32.

(** IEEE 754 binary64, the C++ [double]. *)
Module F64.
Definition prec : Z := 53.
Definition emax : Z := 1024.
Definition of_int (z : Z) : spec_float := binary_normalize prec emax z 0 false.
Definition mul : spec_float -> spec_float -> spec_float := SFmul prec emax.
Definition div : spec_float -> spec_float -> spec_float := SFdiv prec emax.
End F64.

(** The integer part of a finite float, rounded toward zero. *)
Definition trunc (x : spec_float) : option Z :=
  match x with
  | S754_zero _ => Some 0
  | S754_finite s m e =>
      Some (cond_Zopp s
              (match e with
               | Zneg _ => Z.shiftr (Zpos m) (- e)
               | _ => Z.shiftl (Zpos m) e
               end))
  | _ => None
  end.

(** The cast [(int)x] of a float.  A value that does not fit (or a NaN) has
    no defined result in C++; the model returns what the x86 conversion
    instruction returns, the most negative [int]. *)
Definition int_of_float (x : spec_float) : Z :=
  match trunc x with
  | Some z => if (INT_MIN <=? z) && (z <=? INT_MAX) then z else INT_MIN
  | None => INT_MIN
  end.

End Machine.

Declare Scope outcome_scope.
Delimit Scope outcome_scope with outcome.
Notation "x <- c ;; k" := (Machine.bind c (fun x => k))
  (at level 61, c at next level, right associativity) : outcome_scope.

(** ** Formatted input: [fstream] and [operator>>(int&)] *)

Module IStream.
Import Machine.
Local Open Scope Z_scope.

Record istream := mk_istream {
  buf : list ascii;      (* the characters not yet consumed *)
  eofbit : bool;
  failbit : bool
}.

Definition open (contents : list ascii) : istream :=
  {| buf := contents; eofbit := false; failbit := false |}.

Definition isspace (c : ascii) : bool :=
  let n := Z.of_N (N_of_ascii c) in
  (n =? 32) || ((9 <=? n) && (n <=? 13)).

Definition digit_of (c : ascii) : option Z :=
  let n := Z.of_N (N_of_ascii c) in
  if (48 <=? n) && (n <=? 57) then Some (n - 48) else None.

Fixpoint skip_ws (s : list ascii) : list ascii :=
  match s with
  | c :: s' => if isspace c then skip_ws s' else s
  | [] => []
  end.

(** Accumulates the leading decimal digits of [s]: the value, the number of
    digits taken and what is left. *)
Fixpoint read_digits (s : list ascii) (acc : Z) (cnt : nat)
  : Z * nat * list ascii :=
  match s with
  | c :: s' =>
      match digit_of c with
      | Some d => read_digits s' (10 * acc + d) (S cnt)
      | None => (acc, cnt, s)
      end
  | [] => (acc, cnt, [])
  end.

Definition at_end (s : list ascii) : bool :=
  match s with [] => true | _ => false end.

(** [fobj >> x] for an [int x] whose value before the call is [old].  A
    stream that is not good only gets [failbit] and leaves [x] alone, as
    does one that runs out while skipping white space; a token with no digit
    stores 0 and one out of range stores the nearest [int], both with
    [failbit]; reaching the end of the input while reading sets [eofbit]. *)
Definition extract_int (st : istream) (old : Z) : istream * Z :=
  if eofbit st || failbit st then
    ({| buf := buf st; eofbit := eofbit st; failbit := true |}, old)
  else
    match skip_ws (buf st) with
    | [] => ({| buf := []; eofbit := true; failbit := true |}, old)
    | c :: rest =>
        let neg := Ascii.eqb c "-" in
        let body := if neg || Ascii.eqb c "+" then rest else c :: rest in
        let '(v, cnt, tail) := read_digits body 0 0 in
        let failed x := ({| buf := tail; eofbit := at_end tail; failbit := true |}, x) in
        match cnt with
        | O => failed 0
        | S _ =>
            let v' := if neg then - v else v in
            if v' >? INT_MAX then failed INT_MAX
            else if v' <? INT_MIN then failed INT_MIN
            else ({| buf := tail; eofbit := at_end tail; failbit := false |}, v')
        end
    end.

End IStream.

(** ** The driver: [main] of [spatialgrange.cc]

    The model starts where the object file is read and ends with the report
    on [cout].  The progress and debug lines on [cerr] are left out, and so
    is the parsing of the command line: the values of [-q], [-s] and [-r]
    come in as numbers. *)

Module Harness.
Import Machine IStream.
Local Open Scope Z_scope.
Local Open Scope outcome_scope.

Definition PAGESIZE : Z := 4096.

(** The six cache sizes of the performance evaluation (lines 206-211). *)
Definition capacities : list Z := [1; 10; 20; 30; 40; 50].

(** [Node], as far as the driver reads it: the coordinates. *)
Record Node := mk_node { m_x : spec_float; m_y : spec_float }.

Record object_entry := mk_object {
  o_objid : Z; o_nodeid : Z; o_x : spec_float; o_y : spec_float
}.

(** Modelled from the spec: [SpatialMapping] ([spatialmap.h], absent), the
    spatial object index; [addObject] inserts one mapping. *)
Definition SpatialMapping := list object_entry.

Definition addObject (smap : SpatialMapping) (objid nodeid : Z)
  (x y : spec_float) : SpatialMapping :=
  smap ++ [mk_object objid nodeid x y].

(** Modelled from the spec: [Array::clean] of [collection.h] (absent) on
    [segmem.m_history], the reset of the access trace: it empties it. *)
Definition clean (history : list PageId) : list PageId := [].

(** The running totals of the performance statistics (lines 125-134). *)
Record totals := mk_totals {
  totaltime : spec_float;
  resultsize : Z;
  totallru1 : Z; totallru10 : Z; totallru20 : Z;
  totallru30 : Z; totallru40 : Z; totallru50 : Z;
  totalnodeaccess : Z;
  totaledgeaccess : Z
}.

Definition totals_init : totals :=
  mk_totals (S754_zero false) 0 0 0 0 0 0 0 0 0.

(** What one call of [SpatialObjectSearch::groupRangeSearch] leaves behind:
    the result array, the two counters it was handed by reference, the pages
    it touched (each recorded in [segmem.m_history]) and the time the two
    [ftime] readings around it give. *)
Record search_outcome := mk_search {
  so_result : list (Z * Z);
  so_nodeaccess : Z;
  so_edgeaccess : Z;
  so_touched : list PageId;
  so_qtime : spec_float
}.

(** The steps of a query iteration that the properties speak about, logged
    in the order the driver takes them. *)
Inductive event :=
| EvClean (before : list PageId)
| EvSources (src : list Z) (rng : list spec_float)
| EvSearch (history : list PageId) (nodeaccess edgeaccess : Z)
           (touched : list PageId)
| EvPagelru (history : list PageId) (numpage : Z).

Definition is_pagelru (e : event) : bool :=
  match e with EvPagelru _ _ => true | _ => false end.

(** How many times a log runs the estimator over a trace. *)
Definition pagelru_calls (log : list event) : nat :=
  length (filter is_pagelru log).

(** The events of one query that cleans the trace, draws [src] and [rng],
    searches from an empty trace with cleared counters, and then measures
    the pages [touched] by that search. *)
Definition query_block (before : list PageId) (src : list Z)
  (rng : list spec_float) (touched : list PageId) : list event :=
  [EvClean before; EvSources src rng; EvSearch [] 0 0 touched]
  ++ map (EvPagelru touched) capacities.

(** A log made of such blocks only. *)
Inductive query_blocks : list event -> Prop :=
| qb_nil : query_blocks []
| qb_cons before src rng touched rest :
    query_blocks rest ->
    query_blocks (query_block before src rng touched ++ rest).

Section Driver.

(** The collaborators and constants that the driver takes from elsewhere. *)
Variable MAXQUERY : Z.                       (* the size of [src] and [rng] *)
Variable rand : nat -> Z.                    (* the successive values of [rand()] *)
Variable indeterminate : Z.                  (* what an uninitialised [int] holds *)
Variable getNode : Z -> option Node.         (* [Graph::getNode] *)
Variable world : Type.                       (* the state of the graph store *)
Variable groupRangeSearch :
  world -> SpatialMapping -> list Z -> list spec_float -> Z -> Z -> Z ->
  search_outcome * world.
(** [GraphSearch::diameter(graph,0,...)]: the diameter and the trace as it
    stands when the query loop starts. *)
Variable graph_diameter : world -> spec_float * list PageId * world.

(** *** Loading the object file (lines 103-115) *)

Fixpoint load_objects (fuel : nat) (fobj : istream) (objsize : Z)
  (smap : SpatialMapping) : outcome (Z * SpatialMapping) :=
  match fuel with
  | O => OutOfFuel
  | S fuel' =>
      let (fobj1, nodeid) := extract_int fobj indeterminate in
      if eofbit fobj1 then Done (objsize, smap)
      else
        let (fobj2, objid) := extract_int fobj1 indeterminate in
        let objsize' := add32 objsize 16 in
        match getNode nodeid with
        | None => Fault NotFound
        | Some node =>
            load_objects fuel' fobj2 objsize'
              (addObject smap objid nodeid (m_x node) (m_y node))
        end
  end.

(** *** Drawing the sources (lines 159-165) *)

(** [(int)((k / 1000.0f) * nodecnt)] *)
Definition scaled_id (k nodecnt : Z) : Z :=
  int_of_float (F32.mul (F32.div (F32.of_int k) (F32.of_int 1000))
                        (F32.of_int nodecnt)).

(** [(int)((rand()%1000 / 1000.0f) * nodecnt)] for the value [r] of [rand()] *)
Definition draw_source (r nodecnt : Z) : Z :=
  scaled_id (Z.rem r 1000) nodecnt.

(** [while ((src[j] = ...) > nodecnt);] from position [pos] of the random
    stream: the accepted value and the next position. *)
Fixpoint sample_source (fuel : nat) (nodecnt : Z) (pos : nat) : option (Z * nat) :=
  match fuel with
  | O => None
  | S fuel' =>
      let v := draw_source (rand pos) nodecnt in
      if v >? nodecnt then sample_source fuel' nodecnt (S pos)
      else Some (v, S pos)
  end.

(** [for (int j=0; j<numsrc; j++) { ... }] with [n] iterations left.  The
    source compares [j] with [numsrc] only; a store into [src[j]] with [j]
    at or past [MAXQUERY] lands outside the arrays and has no defined
    result, which the model records as the [OutOfBounds] fault. *)
Fixpoint fill_sources (fuel : nat) (n : nat) (j : Z) (range diameter : spec_float)
  (nodecnt : Z) (pos : nat) (src : list Z) (rng : list spec_float)
  : outcome (list Z * list spec_float * nat) :=
  match n with
  | O => Done (src, rng, pos)
  | S n' =>
      if MAXQUERY <=? j then Fault OutOfBounds
      else
        match sample_source fuel nodecnt pos with
        | None => OutOfFuel
        | Some (v, pos') =>
            fill_sources fuel n' (j + 1) range diameter nodecnt pos'
              (src ++ [v]) (rng ++ [F32.mul range diameter])
        end
  end.

Definition generate_sources (fuel : nat) (numsrc : Z) (range diameter : spec_float)
  (nodecnt : Z) (pos : nat) : outcome (list Z * list spec_float * nat) :=
  fill_sources fuel (Z.to_nat numsrc) 0 range diameter nodecnt pos [] [].

(** *** One query (lines 147-223) *)

Record machine := mk_machine {
  m_world : world;
  m_history : list PageId;      (* [segmem.m_history] *)
  m_rand : nat;                 (* how many values of [rand()] are used up *)
  m_totals : totals;
  m_log : list event
}.

(** The statements of the loop body read and write the machine and may
    stop the run. *)
Definition step (A : Type) := machine -> outcome (A * machine).

Definition then_ {A B : Type} (c : step A) (k : A -> step B) : step B :=
  fun m => r <- c m ;; k (fst r) (snd r).

Definition logged (e : event) (m : machine) : machine :=
  {| m_world := m_world m; m_history := m_history m; m_rand := m_rand m;
     m_totals := m_totals m; m_log := m_log m ++ [e] |}.

(** [segmem.m_history.clean();] *)
Definition history_clean : step unit :=
  fun m =>
    Done (tt, logged (EvClean (m_history m))
                {| m_world := m_world m; m_history := clean (m_history m);
                   m_rand := m_rand m; m_totals := m_totals m;
                   m_log := m_log m |}).

Definition find_query_point (fuel : nat) (numsrc : Z)
  (range diameter : spec_float) (nodecnt : Z)
  : step (list Z * list spec_float) :=
  fun m =>
    sr <- generate_sources fuel numsrc range diameter nodecnt (m_rand m) ;;
    let '(src, rng, pos) := sr in
    Done ((src, rng),
          logged (EvSources src rng)
            {| m_world := m_world m; m_history := m_history m;
               m_rand := pos; m_totals := m_totals m; m_log := m_log m |}).

Definition object_search (smap : SpatialMapping) (src : list Z)
  (rng : list spec_float) (numsrc nodeaccess edgeaccess : Z)
  : step search_outcome :=
  fun m =>
    let (so, w) :=
      groupRangeSearch (m_world m) smap src rng numsrc nodeaccess edgeaccess in
    Done (so,
          logged (EvSearch (m_history m) nodeaccess edgeaccess (so_touched so))
            {| m_world := w; m_history := m_history m ++ so_touched so;
               m_rand := m_rand m; m_totals := m_totals m; m_log := m_log m |}).

(** [IOMeasure::pagelru(segmem.m_history, PAGESIZE, numpage)] *)
Definition call_pagelru (numpage : Z) : step Z :=
  fun m =>
    match IOMeasure.pagelru (m_history m) PAGESIZE numpage with
    | inl _ => Fault Capacity
    | inr hits => Done (hits, logged (EvPagelru (m_history m) numpage) m)
    end.

Definition add_totals (qtime : spec_float)
  (rescnt nodeaccess edgeaccess lru1 lru10 lru20 lru30 lru40 lru50 : Z)
  : step unit :=
  fun m =>
    let t := m_totals m in
    Done (tt,
          {| m_world := m_world m; m_history := m_history m;
             m_rand := m_rand m;
             m_totals :=
               {| totaltime := F32.add (totaltime t) qtime;
                  resultsize := add32 (resultsize t) rescnt;
                  totallru1 := add32 (totallru1 t) lru1;
                  totallru10 := add32 (totallru10 t) lru10;
                  totallru20 := add32 (totallru20 t) lru20;
                  totallru30 := add32 (totallru30 t) lru30;
                  totallru40 := add32 (totallru40 t) lru40;
                  totallru50 := add32 (totallru50 t) lru50;
                  totalnodeaccess := add32 (totalnodeaccess t) nodeaccess;
                  totaledgeaccess := add32 (totaledgeaccess t) edgeaccess |};
             m_log := m_log m |}).

Definition query_iteration (fuel : nat) (smap : SpatialMapping)
  (numsrc : Z) (range diameter : spec_float) (nodecnt : Z) : step unit :=
  let nodeaccess := 0 in
  let edgeaccess := 0 in
  let rescnt := 0 in
  then_ history_clean (fun _ =>
  then_ (find_query_point fuel numsrc range diameter nodecnt) (fun sr =>
  then_ (object_search smap (fst sr) (snd sr) numsrc nodeaccess edgeaccess) (fun so =>
  let rescnt := add32 rescnt (Z.of_nat (length (so_result so))) in
  then_ (call_pagelru 1) (fun lru1 =>
  then_ (call_pagelru 10) (fun lru10 =>
  then_ (call_pagelru 20) (fun lru20 =>
  then_ (call_pagelru 30) (fun lru30 =>
  then_ (call_pagelru 40) (fun lru40 =>
  then_ (call_pagelru 50) (fun lru50 =>
  add_totals (so_qtime so) rescnt (so_nodeaccess so) (so_edgeaccess so)
    lru1 lru10 lru20 lru30 lru40 lru50))))))))).

(** [for (int i=0; i<numquery; i++) { ... }] with [n] iterations left. *)
Fixpoint run_queries (fuel : nat) (n : nat) (smap : SpatialMapping)
  (numsrc : Z) (range diameter : spec_float) (nodecnt : Z)
  (m : machine) : outcome machine :=
  match n with
  | O => Done m
  | S n' =>
      r <- query_iteration fuel smap numsrc range diameter nodecnt m ;;
      run_queries fuel n' smap numsrc range diameter nodecnt (snd r)
  end.

(** The machine after one query, given the sources that were drawn. *)
Definition after_query (smap : SpatialMapping) (numsrc : Z)
  (m : machine) (src : list Z) (rng : list spec_float) (pos : nat)
  : machine :=
  let so := fst (groupRangeSearch (m_world m) smap src rng numsrc 0 0) in
  let T := so_touched so in
  let t := m_totals m in
  let hits c := Z.of_nat (IOMeasure.hitCount T c) in
  {| m_world := snd (groupRangeSearch (m_world m) smap src rng numsrc 0 0);
     m_history := T;
     m_rand := pos;
     m_totals :=
       {| totaltime := F32.add (totaltime t) (so_qtime so);
          resultsize :=
            add32 (resultsize t) (add32 0 (Z.of_nat (length (so_result so))));
          totallru1 := add32 (totallru1 t) (hits 1%nat);
          totallru10 := add32 (totallru10 t) (hits 10%nat);
          totallru20 := add32 (totallru20 t) (hits 20%nat);
          totallru30 := add32 (totallru30 t) (hits 30%nat);
          totallru40 := add32 (totallru40 t) (hits 40%nat);
          totallru50 := add32 (totallru50 t) (hits 50%nat);
          totalnodeaccess := add32 (totalnodeaccess t) (so_nodeaccess so);
          totaledgeaccess := add32 (totaledgeaccess t) (so_edgeaccess so) |};
     m_log := m_log m ++ query_block (m_history m) src rng T |}.

End Driver.

(** *** The report (lines 229-243) *)

Inductive value :=
| VFloat (x : spec_float)      (* a [float] *)
| VDouble (x : spec_float)     (* a [double] *)
| VInt (z : Z).

(** The [cout] statements in order; a statement whose expression traps
    ends the output there. *)
Fixpoint emit (items : list (string * outcome value))
  : list (string * value) * option fault :=
  match items with
  | [] => ([], None)
  | (label, Done v) :: rest =>
      let (out, f) := emit rest in ((label, v) :: out, f)
  | (_, Fault f) :: _ => ([], Some f)
  | (_, OutOfFuel) :: _ => ([], None)
  end.

(** [total/numquery] on a [float] and an [int] *)
Definition float_avg (total : spec_float) (numquery : Z) : outcome value :=
  Done (VFloat (F32.div total (F32.of_int numquery))).

(** [total*1.0/numquery] on two [int]s *)
Definition double_avg (total numquery : Z) : outcome value :=
  Done (VDouble (F64.div (F64.mul (F64.of_int total) (F64.of_int 1))
                         (F64.of_int numquery))).

(** [total/numquery] on two [int]s *)
Definition int_avg (total numquery : Z) : outcome value :=
  q <- int_div total numquery ;; Done (VInt q).

Definition report (idxtime : spec_float) (graphsize objsize numquery : Z)
  (t : totals) : list (string * value) * option fault :=
  emit
    [ ("idxtime:,", Done (VFloat idxtime));
      (",graphsize:,", Done (VInt graphsize));
      (",objsize:,", Done (VInt objsize));
      (",#query:,", Done (VInt numquery));
      (",qtime:,", float_avg (totaltime t) numquery);
      (",#res:,", double_avg (resultsize t) numquery);
      (",node:,", double_avg (totalnodeaccess t) numquery);
      (",edge:,", double_avg (totaledgeaccess t) numquery);
      (",lru1:,", int_avg (totallru1 t) numquery);
      (",lru10:,", int_avg (totallru10 t) numquery);
      (",lru20:,", int_avg (totallru20 t) numquery);
      (",lru30:,", int_avg (totallru30 t) numquery);
      (",lru40:,", int_avg (totallru40 t) numquery);
      (",lru50:,", int_avg (totallru50 t) numquery) ]%string.

(** *** The whole run, from the object file on (lines 94-248)

    [objfile] is the text of the object file, [numquery], [numsrc] and
    [range] the values of [-q], [-s] and [-r]; [graphsize], [nodecnt] and
    [idxtime] are what [segmem.size()], [graph.m_nodes.size()] and the timing
    of the load give.  The result is what [cout] receives and the fault that
    cut it short, if any. *)
Definition main (MAXQUERY : Z) (rand : nat -> Z) (indeterminate : Z)
  (getNode : Z -> option Node) (world : Type)
  (groupRangeSearch :
     world -> SpatialMapping -> list Z -> list spec_float -> Z -> Z -> Z ->
     search_outcome * world)
  (graph_diameter : world -> spec_float * list PageId * world)
  (fuel : nat) (w0 : world) (graphsize nodecnt : Z) (idxtime : spec_float)
  (objfile : list ascii) (numquery numsrc : Z) (range : spec_float)
  : outcome (list event * (list (string * value) * option fault)) :=
  ld <- load_objects indeterminate getNode fuel (open objfile) 0 [] ;;
  let (objsize, smap) := ld in
  let '(diameter, history, w1) := graph_diameter w0 in
  m <- run_queries MAXQUERY rand groupRangeSearch fuel (Z.to_nat numquery)
         smap numsrc range diameter nodecnt
         (mk_machine w1 history O totals_init []) ;;
  Done (m_log m, report idxtime graphsize objsize numquery (m_totals m)).

(** *** Object files as text *)

(** The number a run of decimal digits denotes. *)
Definition decimal (tok : list ascii) : Z :=
  fold_left (fun acc c => 10 * acc + (Z.of_N (N_of_ascii c) - 48)) tok 0.

Definition is_digit (c : ascii) : bool :=
  match digit_of c with Some _ => true | None => false end.

(** Where the digits of a token end: at the end of the input or before a
    character that is no digit. *)
Definition stops (rest : list ascii) : Prop :=
  match rest with
  | [] => True
  | c :: _ => is_digit c = false
  end.

(** A non-empty run of digits whose number fits an [int]. *)
Definition token (tok : list ascii) : Prop :=
  tok <> [] /\ forallb is_digit tok = true /\ decimal tok <= INT_MAX.

(** One record per line: node id, a blank, object id, a newline. *)
Definition render (recs : list (list ascii * list ascii)) : list ascii :=
  flat_map (fun r => fst r ++ " "%char :: snd r ++ ["010"%char]) recs.

Definition coordinates (getNode : Z -> option Node) (nodeid : Z) : Node :=
  match getNode nodeid with
  | Some node => node
  | None => mk_node S754_nan S754_nan
  end.

(** A record of two tokens whose node the graph knows. *)
Definition loadable (getNode : Z -> option Node)
  (r : list ascii * list ascii) : Prop :=
  token (fst r) /\ token (snd r) /\ getNode (decimal (fst r)) <> None.

Definition entries (getNode : Z -> option Node)
  (recs : list (list ascii * list ascii)) : SpatialMapping :=
  map (fun r =>
         let node := coordinates getNode (decimal (fst r)) in
         mk_object (decimal (snd r)) (decimal (fst r)) (m_x node) (m_y node))
      recs.

(** The ids that [scaled_id] reaches from the 1000 residues of [rand()%1000]. *)
Definition reachable_ids (nodecnt : Z) : list Z :=
  map (fun k => scaled_id (Z.of_nat k) nodecnt) (seq 0 1000).

End Harness.

(** ** A small concrete setting for examples *)

Module Setting.
Import Machine Harness.
Local Open Scope Z_scope.

Definition MAXQUERY : Z := 10.

(** A stand-in for [rand()], with values in [0, 32767]. *)
Definition rand (n : nat) : Z := (Z.of_nat n * 7919 + 12345) mod 32768.

Definition getNode (nodeid : Z) : option Node :=
  if (0 <=? nodeid) && (nodeid <? 1000)
  then Some (mk_node (F32.of_int nodeid) (F32.of_int (2 * nodeid)))
  else None.

(** A search engine that touches the pages of its sources, twice over. *)
Definition groupRangeSearch (w : unit) (smap : SpatialMapping) (src : list Z)
  (rng : list spec_float) (numsrc nodeaccess edgeaccess : Z)
  : search_outcome * unit :=
  (mk_search [] (nodeaccess + numsrc) edgeaccess
     (map (fun v => v / 64) (src ++ src)) (F32.of_int 1), tt).

Definition graph_diameter (w : unit) : spec_float * list PageId * unit :=
  (F32.of_int 50, [7; 8; 9], tt).

Definition start : machine unit :=
  mk_machine tt [7; 8; 9] O totals_init [].

End Setting.

(** ** Object files with any white space between the numbers *)

Module ObjectText.
Import Machine IStream Harness.
Local Open Scope Z_scope.

(** One record of an object file as it is written: the digits of the node
    id, the white space after them, the digits of the object id and the
    white space after those. *)
Record record_text := mk_record_text {
  rt_node : list ascii;
  rt_sep : list ascii;
  rt_obj : list ascii;
  rt_trail : list ascii
}.

(** A non-empty run of white space. *)
Definition blank (ws : list ascii) : Prop :=
  ws <> [] /\ forallb isspace ws = true.

Definition record_chars (r : record_text) : list ascii :=
  rt_node r ++ rt_sep r ++ rt_obj r ++ rt_trail r.

Definition records_chars (recs : list record_text) : list ascii :=
  flat_map record_chars recs.

Definition well_formed (getNode : Z -> option Node) (r : record_text) : Prop :=
  token (rt_node r) /\ blank (rt_sep r) /\ token (rt_obj r) /\
  blank (rt_trail r) /\ getNode (decimal (rt_node r)) <> None.

Definition pairs (recs : list record_text) : list (list ascii * list ascii) :=
  map (fun r => (rt_node r, rt_obj r)) recs.

(** How a file may end after its last white space: with nothing more, or
    with one more record whose object id runs up to the end of the input. *)
Definition ending_chars (final : option (list ascii * list ascii * list ascii))
  : list ascii :=
  match final with
  | None => []
  | Some (a, s, b) => a ++ s ++ b
  end.

Definition ending_pairs (final : option (list ascii * list ascii * list ascii))
  : list (list ascii * list ascii) :=
  match final with
  | None => []
  | Some (a, _, b) => [(a, b)]
  end.

Definition ending_ok (getNode : Z -> option Node)
  (final : option (list ascii * list ascii * list ascii)) : Prop :=
  match final with
  | None => True
  | Some (a, s, b) =>
      token a /\ blank s /\ token b /\ getNode (decimal a) <> None
  end.

(** A character that cannot start a number: no white space, no digit, no
    sign. *)
Definition junk (c : ascii) : Prop :=
  isspace c = false /\ is_digit c = false /\
  Ascii.eqb c "-" = false /\ Ascii.eqb c "+" = false.

(** An index entry that sits on a node of the graph, at that node's
    coordinates. *)
Definition on_graph (getNode : Z -> option Node) (e : object_entry) : Prop :=
  getNode (o_nodeid e) = Some (mk_node (o_x e) (o_y e)).

End ObjectText.

(** ** The two timings of the driver (lines 116-119 and 173-176) *)

Module Clock.
Import Machine.
Local Open Scope Z_scope.

(** [struct timeb], as far as the driver reads it: the seconds, a [time_t],
    and the milliseconds, an [unsigned short]. *)
Record timeb := mk_timeb { time : Z; millitm : Z }.

(** Two's complement wrap-around of a 64-bit [long], the type of [time_t]. *)
Definition wrap64 (z : Z) : Z :=
  (z + 9223372036854775808) mod 18446744073709551616 - 9223372036854775808.

(** [t.time*1000 + t.millitm] *)
Definition millis (t : timeb) : Z :=
  wrap64 (wrap64 (time t * 1000) + millitm t).

(** [((endtime.time*1000 + endtime.millitm) -
      (starttime.time*1000 + starttime.millitm)) / 1000.0f] *)
Definition elapsed (starttime endtime : timeb) : spec_float :=
  F32.div (F32.of_int (wrap64 (millis endtime - millis starttime)))
          (F32.of_int 1000).

(** A reading that [ftime] can give: a time of day that is not negative and
    far from the end of the range of [time_t], and less than a thousand
    milliseconds. *)
Definition reading (t : timeb) : Prop :=
  0 <= time t < 1000000000000 /\ 0 <= millitm t < 1000.

End Clock.

(** ** The report as a list of fields *)

Module ReportShape.
Import Machine Harness.

(** The labels of the fourteen [cout] statements, in order. *)
Definition labels : list string :=
  [ "idxtime:,"; ",graphsize:,"; ",objsize:,"; ",#query:,"; ",qtime:,";
    ",#res:,"; ",node:,"; ",edge:,"; ",lru1:,"; ",lru10:,"; ",lru20:,";
    ",lru30:,"; ",lru40:,"; ",lru50:," ]%string.

End ReportShape.

(** * Properties *)

(** ** Facts about the estimator and the LRU cache *)

Module LRUFacts.
Import IOMeasure.

Lemma est_run_snoc caps T p :
  est_run caps (T ++ [p]) = est_step caps (est_run caps T) p.
Proof. unfold est_run. now rewrite fold_left_app. Qed.

Lemma recency_snoc T p :
  recency (T ++ [p]) = p :: remove Z.eq_dec p (recency T).
Proof. unfold recency. now rewrite fold_left_app. Qed.

Lemma NoDup_remove_all (x : PageId) l : NoDup l -> NoDup (remove Z.eq_dec x l).
Proof.
  induction 1 as [|a l Ha Hl IH]; simpl; [constructor|].
  destruct (Z.eq_dec x a); [assumption|].
  constructor; [|assumption].
  intro Hin. apply in_remove in Hin. tauto.
Qed.

Lemma recency_In T x : In x (recency T) <-> In x T.
Proof.
  induction T as [|p T IH] using rev_ind; [simpl; tauto|].
  rewrite recency_snoc, in_app_iff. simpl. split.
  - intros [->|Hin]; [tauto|]. apply in_remove in Hin. tauto.
  - intros [Hin|[->|[]]]; [|tauto].
    destruct (Z.eq_dec p x) as [->|Hne]; [tauto|].
    right. apply in_in_remove; [congruence | tauto].
Qed.

Lemma recency_NoDup T : NoDup (recency T).
Proof.
  induction T as [|p T IH] using rev_ind; [constructor|].
  rewrite recency_snoc. constructor.
  - apply remove_In.
  - now apply NoDup_remove_all.
Qed.

Lemma recency_length T : length (recency T) = distinct_count T.
Proof.
  unfold distinct_count. apply Permutation_length.
  apply NoDup_Permutation.
  - apply recency_NoDup.
  - apply NoDup_nodup.
  - intro x. rewrite recency_In, nodup_In. tauto.
Qed.

(** The pages touched since the last access to [p] sit on top of [p] in the
    recency stack. *)
Lemma recency_split l1 p l2 :
  ~ In p l2 ->
  exists rest, recency (l1 ++ p :: l2) = recency l2 ++ p :: rest.
Proof.
  induction l2 as [|x l2 IH] using rev_ind; intro Hp.
  - exists (remove Z.eq_dec p (recency l1)). apply recency_snoc.
  - rewrite in_app_iff in Hp. simpl in Hp.
    destruct IH as [rest Hrest]; [tauto|].
    exists (remove Z.eq_dec x rest).
    change (l1 ++ p :: l2 ++ [x]) with (l1 ++ (p :: l2) ++ [x]).
    rewrite app_assoc, !recency_snoc, Hrest, remove_app. simpl.
    destruct (Z.eq_dec x p); [subst; tauto | reflexivity].
Qed.

Lemma In_firstn_split (p : PageId) A B c :
  NoDup (A ++ p :: B) ->
  In p (firstn c (A ++ p :: B)) <-> length A < c.
Proof.
  revert c. induction A as [|a A IH]; intros c Hnd; simpl in *.
  - destruct c; simpl; [split; [tauto | lia] | split; [lia | tauto]].
  - inversion Hnd as [|? ? Ha Hnd']; subst.
    destruct c; simpl; [split; [tauto | lia]|].
    rewrite <- Nat.succ_lt_mono, <- (IH c Hnd'). split; [|tauto].
    intros [->|Hin]; [|assumption].
    exfalso. apply Ha. apply in_or_app. right. now left.
Qed.

Lemma In_firstn (x : PageId) n l : In x (firstn n l) -> In x l.
Proof.
  revert n. induction l as [|a l IH]; intros [|n]; simpl; try tauto.
  intros [?|?]; eauto.
Qed.

Lemma est_run_tracks caps T : tracks (est_run caps T) T.
Proof.
  induction T as [|x T IH] using rev_ind.
  - repeat split. intros p []. 
  - rewrite est_run_snoc. destruct IH as (Hnow & Hseen & Hlast).
    repeat split; simpl.
    + rewrite Hnow, length_app. simpl. lia.
    + now rewrite Hseen.
    + intro p. destruct (Z.eqb_spec p x) as [->|Hne].
      * exists T, []. rewrite Hnow. repeat split. intros [].
      * specialize (Hlast p). destruct (last_seen (est_run caps T) p) as [q|].
        -- destruct Hlast as (l1 & l2 & -> & Hq & Hp).
           exists l1, (l2 ++ [x]). rewrite <- app_assoc. repeat split; [assumption|].
           rewrite in_app_iff. simpl. intros [?|[?|[]]]; [tauto | congruence].
        -- rewrite in_app_iff. simpl. intros [?|[?|[]]]; [tauto | congruence].
Qed.

Lemma window_tracks st l1 p l2 :
  tracks st (l1 ++ p :: l2) -> window st (length l1) = l2.
Proof.
  intros (Hnow & Hseen & _). unfold window. rewrite Hnow, Hseen.
  assert (Hskip : skipn (S (length l1)) (l1 ++ p :: l2) = l2).
  { replace (l1 ++ p :: l2) with ((l1 ++ [p]) ++ l2) by now rewrite <- app_assoc.
    replace (S (length l1)) with (length (l1 ++ [p]))
      by (rewrite length_app; simpl; lia).
    rewrite skipn_app, skipn_all, Nat.sub_diag. reflexivity. }
  rewrite Hskip, length_app. simpl.
  replace (length l1 + S (length l2) - length l1 - 1) with (length l2) by lia.
  apply firstn_all.
Qed.

Lemma counts_length caps T : length (counts (est_run caps T)) = length caps.
Proof.
  induction T as [|x T IH] using rev_ind.
  - simpl. apply length_map.
  - rewrite est_run_snoc. simpl.
    destruct (last_seen (est_run caps T) x); [|assumption].
    unfold credit. rewrite length_map, length_combine, IH. lia.
Qed.

(** The estimator counts an access as a hit at capacity [c] exactly when the
    page is among the [c] most recently used ones. *)
Lemma hitCount_snoc T p c :
  hitCount (T ++ [p]) c =
  hitCount T c + (if in_dec Z.eq_dec p (firstn c (recency T)) then 1 else 0).
Proof.
  unfold hitCount, estimate. rewrite est_run_snoc.
  pose proof (counts_length [c] T) as Hlen.
  pose proof (est_run_tracks [c] T) as Htr.
  destruct (counts (est_run [c] T)) as [|n [|? ?]] eqn:Hc; try discriminate Hlen.
  simpl. rewrite Hc.
  pose proof Htr as (_ & _ & Hlast). specialize (Hlast p).
  destruct (last_seen (est_run [c] T) p) as [q|].
  - destruct Hlast as (l1 & l2 & HT & Hq & Hp). subst q.
    assert (Hw : window (est_run [c] T) (length l1) = l2).
    { apply window_tracks with (p := p). now rewrite <- HT. }
    rewrite Hw. simpl.
    destruct (@recency_split l1 p l2 Hp) as [rest Hrest].
    pose proof (recency_NoDup T) as Hnd. rewrite HT, Hrest in *.
    pose proof (@In_firstn_split p (recency l2) rest c Hnd) as Hiff.
    rewrite recency_length in Hiff.
    destruct (Nat.ltb_spec (distinct_count l2) c);
      destruct (in_dec Z.eq_dec p (firstn c (recency l2 ++ p :: rest)));
      simpl; try lia; exfalso; intuition lia.
  - destruct (in_dec Z.eq_dec p (firstn c (recency T))) as [Hin|]; simpl; [|lia].
    exfalso. apply Hlast. apply recency_In. eapply In_firstn; eauto.
Qed.

Lemma hitCount_nil c : hitCount [] c = 0.
Proof. reflexivity. Qed.

(** *** The bounded cache is the top of the recency stack *)

Lemma remove_firstn_hit (p : PageId) stk c :
  NoDup stk -> In p (firstn c stk) ->
  remove Z.eq_dec p (firstn c stk) = firstn (c - 1) (remove Z.eq_dec p stk).
Proof.
  intros Hnd. revert c. induction Hnd as [|a stk Ha Hnd IH]; intros c Hin.
  - destruct c; simpl in Hin; tauto.
  - destruct c as [|c]; simpl in Hin; [tauto|]. simpl.
    rewrite Nat.sub_0_r.
    destruct (Z.eq_dec p a) as [->|Hne].
    + assert (Hn : ~ In a (firstn c stk)) by (intro; apply Ha; eauto using In_firstn).
      rewrite !notin_remove by assumption. reflexivity.
    + destruct Hin as [?|Hin]; [congruence|].
      destruct c as [|c]; simpl in Hin; [tauto|].
      rewrite (IH (S c)) by assumption. simpl. now rewrite Nat.sub_0_r.
Qed.

Lemma firstn_remove_miss (p : PageId) stk n :
  ~ In p (firstn n stk) -> firstn n (remove Z.eq_dec p stk) = firstn n stk.
Proof.
  revert n. induction stk as [|a stk IH]; intros [|n] Hin; simpl in *; try reflexivity.
  destruct (Z.eq_dec p a) as [->|Hne]; [tauto|].
  simpl. f_equal. apply IH. tauto.
Qed.

Lemma firstn_weaken (p : PageId) stk n m :
  n <= m -> In p (firstn n stk) -> In p (firstn m stk).
Proof.
  revert n m. induction stk as [|a stk IH]; intros [|n] [|m] Hle; simpl; try tauto; try lia.
  intros [?|?]; [tauto|]. right. apply IH with n; [lia | assumption].
Qed.

Lemma lru_access_recency c T p :
  1 <= c ->
  lru_access c (firstn c (recency T)) p =
  (if in_dec Z.eq_dec p (firstn c (recency T)) then true else false,
   firstn c (recency (T ++ [p]))).
Proof.
  intro Hc. unfold lru_access. rewrite recency_snoc.
  destruct c as [|c]; [lia|].
  set (S0 := recency T). pose proof (recency_NoDup T) as Hnd. fold S0 in Hnd.
  rewrite firstn_cons.
  destruct (in_dec Z.eq_dec p (firstn (S c) S0)) as [Hin|Hin].
  - rewrite remove_firstn_hit by assumption.
    simpl. now rewrite Nat.sub_0_r.
  - f_equal. f_equal.
    rewrite firstn_remove_miss
      by (intro; apply Hin; eapply firstn_weaken; [|eassumption]; lia).
    destruct (Nat.ltb_spec (length (firstn (S c) S0)) (S c)) as [Hlt|Hge].
    + assert (length S0 <= c).
      { destruct (Nat.le_gt_cases (S c) (length S0)) as [Hle|]; [|lia].
        rewrite firstn_length_le in Hlt by assumption. lia. }
      rewrite !firstn_all2 by lia. reflexivity.
    + pose proof (firstn_le_length (S c) S0).
      assert (c < length S0).
      { destruct (Nat.le_gt_cases (S c) (length S0)) as [|Hgt]; [lia|].
        rewrite firstn_all2 in Hge by lia. lia. }
      now apply removelast_firstn.
Qed.

Lemma lru_replay_hitCount c T2 : forall T1,
  1 <= c ->
  hitCount T1 c + lru_replay c (firstn c (recency T1)) T2 = hitCount (T1 ++ T2) c.
Proof.
  induction T2 as [|p T2 IH]; intros T1 Hc; simpl.
  - now rewrite app_nil_r, Nat.add_0_r.
  - rewrite lru_access_recency by assumption.
    replace (T1 ++ p :: T2) with ((T1 ++ [p]) ++ T2) by now rewrite <- app_assoc.
    rewrite <- IH by assumption. rewrite hitCount_snoc.
    destruct (in_dec Z.eq_dec p (firstn c (recency T1))); lia.
Qed.

Lemma hitCount_brute_force T c :
  1 <= c -> hitCount T c = brute_force_hits T c.
Proof.
  intro Hc. unfold brute_force_hits.
  pose proof (@lru_replay_hitCount c T [] Hc) as H.
  simpl in H. rewrite firstn_nil in H. now rewrite <- H.
Qed.

(** One pass serves every capacity of the list. *)
Lemma estimate_all caps T : estimate caps T = map (hitCount T) caps.
Proof.
  induction T as [|p T IH] using rev_ind.
  - unfold estimate. simpl. apply map_ext. reflexivity.
  - unfold estimate in *. rewrite est_run_snoc. simpl.
    pose proof (est_run_tracks caps T) as Htr.
    pose proof (est_run_tracks caps T) as (_ & _ & Hlast). specialize (Hlast p).
    rewrite IH.
    destruct (last_seen (est_run caps T) p) as [q|].
    + destruct Hlast as (l1 & l2 & HT & Hq & Hp). subst q.
      assert (Hw : window (est_run caps T) (length l1) = l2).
      { apply window_tracks with (p := p). now rewrite <- HT. }
      rewrite Hw. unfold credit.
      destruct (@recency_split l1 p l2 Hp) as [rest Hrest].
      pose proof (recency_NoDup T) as Hnd. 
      clear IH Htr Hw. induction caps as [|c caps IHc]; [reflexivity|].
      simpl. f_equal; [|apply IHc].
      rewrite hitCount_snoc.
      pose proof (@In_firstn_split p (recency l2) rest c) as Hiff.
      rewrite HT, Hrest in *. specialize (Hiff Hnd).
      rewrite recency_length in Hiff.
      destruct (Nat.ltb_spec (distinct_count l2) c);
        destruct (in_dec Z.eq_dec p (firstn c (recency l2 ++ p :: rest)));
        simpl; try lia; exfalso; intuition lia.
    + apply map_ext. intro c. rewrite hitCount_snoc.
      destruct (in_dec Z.eq_dec p (firstn c (recency T))) as [Hin|]; [|lia].
      exfalso. apply Hlast. apply recency_In. eapply In_firstn; eauto.
Qed.

Lemma hitCount_mono T c1 c2 : c1 <= c2 -> hitCount T c1 <= hitCount T c2.
Proof.
  intro Hle. induction T as [|p T IH] using rev_ind; [reflexivity|].
  rewrite !hitCount_snoc.
  destruct (in_dec Z.eq_dec p (firstn c1 (recency T))) as [H1|];
    destruct (in_dec Z.eq_dec p (firstn c2 (recency T))) as [|H2]; try lia.
  exfalso. apply H2. now apply firstn_weaken with c1.
Qed.

Lemma distinct_count_snoc T p :
  distinct_count (T ++ [p]) =
  distinct_count T + (if in_dec Z.eq_dec p T then 0 else 1).
Proof.
  rewrite <- !recency_length, recency_snoc. cbn [length].
  destruct (in_dec Z.eq_dec p T) as [Hin|Hin].
  - apply recency_In in Hin.
    pose proof (remove_length_lt Z.eq_dec (recency T) p Hin) as Hlt.
    assert (length (recency T) <= S (length (remove Z.eq_dec p (recency T)))); [|lia].
    clear Hlt. pose proof (recency_NoDup T) as Hnd.
    induction Hnd as [|a stk Ha Hnd IH]; simpl; [lia|].
    destruct (Z.eq_dec p a) as [->|Hne].
    + rewrite notin_remove by assumption. lia.
    + simpl. destruct Hin as [?|Hin]; [congruence|]. specialize (IH Hin). lia.
  - rewrite notin_remove by (now rewrite recency_In). lia.
Qed.

Lemma hitCount_saturated T c :
  distinct_count T <= c -> hitCount T c + distinct_count T = length T.
Proof.
  induction T as [|p T IH] using rev_ind; intro Hc; [reflexivity|].
  rewrite distinct_count_snoc in *. rewrite hitCount_snoc, length_app. simpl.
  assert (Hc' : distinct_count T <= c) by lia. specialize (IH Hc').
  rewrite firstn_all2 by (rewrite recency_length; lia).
  destruct (in_dec Z.eq_dec p T) as [Hin|Hin];
    destruct (in_dec Z.eq_dec p (recency T)) as [Hr|Hr];
    rewrite recency_In in Hr; try tauto; lia.
Qed.

Lemma pagelru_positive T ps c :
  (0 < c)%Z ->
  pagelru T ps c = inr (Z.of_nat (hitCount T (Z.to_nat c))).
Proof.
  intro Hc. unfold pagelru.
  destruct (Z.leb_spec c 0); [lia | reflexivity].
Qed.

Lemma pagelru_brute_force T ps c :
  (0 < c)%Z ->
  pagelru T ps c = inr (Z.of_nat (brute_force_hits T (Z.to_nat c))).
Proof.
  intro Hc. rewrite pagelru_positive by assumption.
  rewrite hitCount_brute_force by lia. reflexivity.
Qed.

End LRUFacts.

(** ** The estimator: monotonicity and saturation *)

Module EstimatorProperties.
Import IOMeasure LRUFacts Harness.

(** C3.  For every trace [T] and positive capacities [c1 < c2] the hit count
    at [c1] is at most the hit count at [c2]; in particular the six values
    that [pagelru] gives the driver for 1, 10, 20, 30, 40 and 50 pages are in
    non-decreasing order. *)
Theorem hitCount_monotone (T : list PageId) (c1 c2 : nat)
  (Hpos : 0 < c1) (Hlt : c1 < c2) :
  hitCount T c1 <= hitCount T c2 /\
  exists lru1 lru10 lru20 lru30 lru40 lru50 : Z,
    pagelru T PAGESIZE 1 = inr lru1 /\
    pagelru T PAGESIZE 10 = inr lru10 /\
    pagelru T PAGESIZE 20 = inr lru20 /\
    pagelru T PAGESIZE 30 = inr lru30 /\
    pagelru T PAGESIZE 40 = inr lru40 /\
    pagelru T PAGESIZE 50 = inr lru50 /\
    (lru1 <= lru10 <= lru20)%Z /\ (lru20 <= lru30 <= lru40)%Z /\
    (lru40 <= lru50)%Z.
Proof.
  split; [apply hitCount_mono; lia|].
  do 6 eexists.
  repeat (split; [apply pagelru_positive; lia|]).
  pose proof (@hitCount_mono T 1 10). pose proof (@hitCount_mono T 10 20).
  pose proof (@hitCount_mono T 20 30). pose proof (@hitCount_mono T 30 40).
  pose proof (@hitCount_mono T 40 50).
  change (Z.to_nat 1) with 1. change (Z.to_nat 10) with 10.
  change (Z.to_nat 20) with 20. change (Z.to_nat 30) with 30.
  change (Z.to_nat 40) with 40. change (Z.to_nat 50) with 50.
  lia.
Qed.

Lemma hitCount_monotone_witness :
  hitCount [1; 2; 1; 3; 1; 2]%Z 1 <= hitCount [1; 2; 1; 3; 1; 2]%Z 2.
Proof.
  apply (@hitCount_monotone [1; 2; 1; 3; 1; 2]%Z 1 2); lia.
Defined.

(** C4.  For every trace [T] and every capacity [c] that is at least the
    number of distinct pages of [T], the hit count is the length of [T] minus
    the number of distinct pages of [T], and that is what [pagelru] returns
    for a positive such capacity; on the empty trace the hit count is 0 at
    every capacity. *)
Theorem hitCount_saturation (T : list PageId) (c : nat)
  (Hc : distinct_count T <= c) :
  hitCount T c = length T - distinct_count T /\
  (0 < c ->
   pagelru T PAGESIZE (Z.of_nat c) =
   inr (Z.of_nat (length T) - Z.of_nat (distinct_count T))%Z) /\
  (forall c', hitCount [] c' = 0).
Proof.
  pose proof (hitCount_saturated T Hc) as Hsat.
  split; [lia|]. split; [|intro; apply hitCount_nil].
  intro Hpos. rewrite pagelru_positive by lia.
  rewrite Nat2Z.id. f_equal. lia.
Qed.

Lemma hitCount_saturation_witness :
  hitCount [1; 2; 1; 3; 1; 2]%Z 3 = 3.
Proof.
  apply (@hitCount_saturation [1; 2; 1; 3; 1; 2]%Z 3). vm_compute. lia.
Defined.

End EstimatorProperties.

(** ** The query loop *)

Module LoopFacts.
Import Machine IOMeasure LRUFacts Harness.
Local Open Scope Z_scope.

Section Loop.
Variable MAXQUERY : Z.
Variable rand : nat -> Z.
Variable world : Type.
Variable groupRangeSearch :
  world -> SpatialMapping -> list Z -> list spec_float -> Z -> Z -> Z ->
  search_outcome * world.

Lemma call_pagelru_done (m : machine world) c :
  0 < c ->
  call_pagelru c m =
  Done (Z.of_nat (hitCount (m_history m) (Z.to_nat c)),
        logged (EvPagelru (m_history m) c) m).
Proof.
  intro Hc. unfold call_pagelru. now rewrite pagelru_positive.
Qed.

Lemma query_iteration_done fuel smap numsrc range diameter nodecnt
  (m : machine world) src rng pos :
  generate_sources MAXQUERY rand fuel numsrc range diameter nodecnt (m_rand m) = Done (src, rng, pos) ->
  query_iteration MAXQUERY rand groupRangeSearch fuel smap numsrc range diameter nodecnt m =
  Done (tt, after_query groupRangeSearch smap numsrc m src rng pos).
Proof.
  intro Hgen.
  unfold query_iteration, then_, history_clean, find_query_point. simpl.
  rewrite Hgen. simpl. unfold object_search. simpl.
  unfold after_query.
  destruct (groupRangeSearch (m_world m) smap src rng numsrc 0 0) as [so w].
  simpl.
  repeat (rewrite call_pagelru_done by lia; simpl).
  unfold add_totals, query_block, capacities. simpl.
  rewrite <- !app_assoc. reflexivity.
Qed.

Lemma query_iteration_stops fuel smap numsrc range diameter nodecnt
  (m : machine world) :
  (forall r, generate_sources MAXQUERY rand fuel numsrc range diameter nodecnt (m_rand m) <> Done r) ->
  forall r, query_iteration MAXQUERY rand groupRangeSearch fuel smap numsrc range diameter nodecnt m <> Done r.
Proof.
  intros Hgen r.
  unfold query_iteration, then_, history_clean, find_query_point. simpl.
  destruct (generate_sources MAXQUERY rand fuel numsrc range diameter nodecnt (m_rand m)) as [sr| |] eqn:E;
    simpl; try discriminate.
  exfalso. apply (Hgen sr). reflexivity.
Qed.

Lemma run_queries_blocks fuel smap numsrc range diameter nodecnt n :
  forall (m m' : machine world),
  run_queries MAXQUERY rand groupRangeSearch fuel n smap numsrc range diameter
    nodecnt m = Done m' ->
  exists added, m_log m' = m_log m ++ added /\ query_blocks added /\
                pagelru_calls added = (6 * n)%nat.
Proof.
  induction n as [|n IH]; intros m m' Hrun; simpl in Hrun.
  - inversion Hrun; subst. exists []. rewrite app_nil_r.
    repeat split. constructor.
  - destruct (generate_sources MAXQUERY rand fuel numsrc range diameter nodecnt (m_rand m))
      as [[[src rng] pos]| |] eqn:Hgen.
    + erewrite query_iteration_done in Hrun by eassumption. simpl in Hrun.
      destruct (IH _ _ Hrun) as (added & Hlog & Hblocks & Hcalls).
      exists (query_block (m_history m) src rng
                (m_history (after_query groupRangeSearch smap numsrc m src rng pos)) ++ added).
      split; [|split].
      * rewrite Hlog. simpl. now rewrite <- app_assoc.
      * now constructor.
      * unfold pagelru_calls in *. rewrite filter_app, length_app, Hcalls.
        simpl. lia.
    + exfalso.
      destruct (query_iteration MAXQUERY rand groupRangeSearch fuel smap numsrc range diameter nodecnt m) as [r| |] eqn:E;
        simpl in Hrun; try discriminate.
      revert E. apply query_iteration_stops. rewrite Hgen. discriminate.
    + exfalso.
      destruct (query_iteration MAXQUERY rand groupRangeSearch fuel smap numsrc range diameter nodecnt m) as [r| |] eqn:E;
        simpl in Hrun; try discriminate.
      revert E. apply query_iteration_stops. rewrite Hgen. discriminate.
Qed.

End Loop.
End LoopFacts.

Module QueryLoop.
Import Machine IOMeasure LRUFacts Harness LoopFacts.
Local Open Scope Z_scope.

(** C8.  Every query iteration first empties the page-access trace and
    starts its node and edge access counters at zero, then draws the
    sources, then runs the group range search, and only then measures: the
    search starts from the empty trace with both counters at 0, and each
    estimator call of the iteration sees exactly the pages that this
    iteration's search touched, whatever the trace held before.  A run of any
    number of iterations logs nothing but such blocks. *)
Theorem query_starts_from_clean_trace
  (MAXQUERY : Z) (rand : nat -> Z) (world : Type)
  (groupRangeSearch :
     world -> SpatialMapping -> list Z -> list spec_float -> Z -> Z -> Z ->
     search_outcome * world)
  (fuel : nat) (smap : SpatialMapping) (numsrc : Z)
  (range diameter : spec_float) (nodecnt : Z) (m : machine world)
  (src : list Z) (rng : list spec_float) (pos : nat)
  (Hgen : generate_sources MAXQUERY rand fuel numsrc range diameter nodecnt
            (m_rand m) = Done (src, rng, pos)) :
  let touched :=
    so_touched (fst (groupRangeSearch (m_world m) smap src rng numsrc 0 0)) in
  (exists m',
     query_iteration MAXQUERY rand groupRangeSearch fuel smap numsrc range
       diameter nodecnt m = Done (tt, m') /\
     m_log m' =
       m_log m ++
       [EvClean (m_history m); EvSources src rng; EvSearch [] 0 0 touched] ++
       map (EvPagelru touched) capacities /\
     m_history m' = touched) /\
  (forall n mN,
     run_queries MAXQUERY rand groupRangeSearch fuel n smap numsrc range
       diameter nodecnt m = Done mN ->
     exists added, m_log mN = m_log m ++ added /\ query_blocks added).
Proof.
  intro touched. split.
  - eexists. split; [apply query_iteration_done; eassumption|].
    split; reflexivity.
  - intros n mN Hrun.
    apply run_queries_blocks in Hrun. destruct Hrun as (added & H1 & H2 & _).
    exists added. now split.
Qed.

Lemma query_starts_from_clean_trace_witness :
  exists m',
    query_iteration Setting.MAXQUERY Setting.rand Setting.groupRangeSearch
      1 [] 5 F32.tenth (F32.of_int 50) 1000 Setting.start = Done (tt, m') /\
    m_history m' = [5; 4; 2; 5; 3; 5; 4; 2; 5; 3].
Proof.
  assert (Hgen :
    generate_sources Setting.MAXQUERY Setting.rand 1 5 F32.tenth
      (F32.of_int 50) 1000 (m_rand Setting.start) =
    Done ([345; 264; 183; 334; 252],
          repeat (F32.of_int 5) 5, 5%nat)) by (vm_compute; reflexivity).
  destruct (@query_starts_from_clean_trace Setting.MAXQUERY Setting.rand unit
              Setting.groupRangeSearch 1 [] 5 F32.tenth (F32.of_int 50)
              1000 Setting.start _ _ _ Hgen) as [(m' & Hit & _ & Hhist) _].
  exists m'. split; [exact Hit | exact Hhist].
Defined.

(** C1 (as the driver has it).  For every trace and every capacity among 1,
    10, 20, 30, 40 and 50, [pagelru] returns the number of hits that a
    replay of the trace through an explicit LRU cache of that capacity
    gives.  The driver gets its six per-query counts from six calls of
    [pagelru], one per capacity and each over the whole trace of the query,
    and adds to each total the brute-force count of its capacity. *)
Theorem pagelru_is_brute_force_per_call
  (MAXQUERY : Z) (rand : nat -> Z) (world : Type)
  (groupRangeSearch :
     world -> SpatialMapping -> list Z -> list spec_float -> Z -> Z -> Z ->
     search_outcome * world)
  (fuel : nat) (smap : SpatialMapping) (numsrc : Z)
  (range diameter : spec_float) (nodecnt : Z) (m : machine world)
  (src : list Z) (rng : list spec_float) (pos : nat)
  (Hgen : generate_sources MAXQUERY rand fuel numsrc range diameter nodecnt
            (m_rand m) = Done (src, rng, pos)) :
  (forall (T : list PageId) (c : Z), In c capacities ->
     pagelru T PAGESIZE c = inr (Z.of_nat (brute_force_hits T (Z.to_nat c)))) /\
  exists m',
    query_iteration MAXQUERY rand groupRangeSearch fuel smap numsrc range
      diameter nodecnt m = Done (tt, m') /\
    let T := m_history m' in
    let t := m_totals m in
    let t' := m_totals m' in
    let brute c := Z.of_nat (brute_force_hits T c) in
    totallru1 t' = add32 (totallru1 t) (brute 1%nat) /\
    totallru10 t' = add32 (totallru10 t) (brute 10%nat) /\
    totallru20 t' = add32 (totallru20 t) (brute 20%nat) /\
    totallru30 t' = add32 (totallru30 t) (brute 30%nat) /\
    totallru40 t' = add32 (totallru40 t) (brute 40%nat) /\
    totallru50 t' = add32 (totallru50 t) (brute 50%nat) /\
    filter is_pagelru (skipn (length (m_log m)) (m_log m')) =
      map (EvPagelru T) capacities.
Proof.
  split.
  - intros T c Hc. apply pagelru_brute_force.
    unfold capacities in Hc. simpl in Hc. intuition lia.
  - eexists. split; [apply query_iteration_done; eassumption|].
    cbv zeta. unfold after_query.
    cbn [m_totals m_history m_log totallru1 totallru10 totallru20 totallru30
         totallru40 totallru50].
    rewrite <- !hitCount_brute_force by lia.
    repeat (split; [reflexivity|]).
    rewrite skipn_app, skipn_all, Nat.sub_diag. reflexivity.
Qed.

Lemma pagelru_is_brute_force_per_call_witness :
  pagelru [5; 4; 2; 5; 3; 5; 4; 2; 5; 3] PAGESIZE 10 =
  inr (Z.of_nat (brute_force_hits [5; 4; 2; 5; 3; 5; 4; 2; 5; 3] 10)).
Proof.
  assert (Hgen :
    generate_sources Setting.MAXQUERY Setting.rand 1 5 F32.tenth
      (F32.of_int 50) 1000 (m_rand Setting.start) =
    Done ([345; 264; 183; 334; 252],
          repeat (F32.of_int 5) 5, 5%nat)) by (vm_compute; reflexivity).
  destruct (@pagelru_is_brute_force_per_call Setting.MAXQUERY Setting.rand unit
              Setting.groupRangeSearch 1 [] 5 F32.tenth (F32.of_int 50)
              1000 Setting.start _ _ _ Hgen) as [Hall _].
  apply (Hall _ 10). unfold capacities. simpl. tauto.
Defined.

(** C1 as stated asks for one pass of the estimator that serves all six
    capacities; the driver runs the estimator six times over the trace of a
    query. *)
Lemma estimator_runs_once_per_capacity :
  exists m',
    query_iteration Setting.MAXQUERY Setting.rand Setting.groupRangeSearch
      1 [] 5 F32.tenth (F32.of_int 50) 1000 Setting.start = Done (tt, m') /\
    pagelru_calls (m_log m') = 6%nat /\
    pagelru_calls (m_log m') <> 1%nat.
Proof.
  eexists. split; [vm_compute; reflexivity|].
  split; [reflexivity | discriminate].
Qed.

End QueryLoop.

(** ** The workload sampler *)

Module SamplerFacts.
Import Machine Harness.
Local Open Scope Z_scope.

Lemma rem_1000_range r : 0 <= r -> 0 <= Z.rem r 1000 < 1000.
Proof. intro Hr. apply Z.rem_bound_pos; lia. Qed.

Lemma scaled_id_reachable k nodecnt :
  0 <= k < 1000 -> In (scaled_id k nodecnt) (reachable_ids nodecnt).
Proof.
  intro Hk. unfold reachable_ids.
  replace k with (Z.of_nat (Z.to_nat k)) by lia.
  apply (in_map (fun k => scaled_id (Z.of_nat k) nodecnt)).
  apply in_seq. lia.
Qed.

Lemma scaled_id_1000 k : 0 <= k < 1000 -> 0 <= scaled_id k 1000 < 1000.
Proof.
  intro Hk.
  assert (Hall : forallb (fun v => (0 <=? v) && (v <? 1000))%bool
                   (reachable_ids 1000) = true) by (vm_compute; reflexivity).
  rewrite forallb_forall in Hall.
  specialize (Hall _ (scaled_id_reachable 1000 Hk)).
  apply andb_true_iff in Hall. destruct Hall as [H1 H2].
  apply Z.leb_le in H1. apply Z.ltb_lt in H2. lia.
Qed.

Section Sampler.
Variable MAXQUERY : Z.
Variable rand : nat -> Z.

(** The loop returns the first draw that is not above [nodecnt], and runs
    on as long as the draws are above it. *)
Lemma sample_source_spec nodecnt fuel : forall pos,
  match sample_source rand fuel nodecnt pos with
  | Some (v, pos') =>
      exists n, (n < fuel)%nat /\ pos' = S (pos + n) /\
                v = draw_source (rand (pos + n)) nodecnt /\ v <= nodecnt /\
                forall i, (i < n)%nat ->
                          draw_source (rand (pos + i)) nodecnt > nodecnt
  | None =>
      forall i, (i < fuel)%nat -> draw_source (rand (pos + i)) nodecnt > nodecnt
  end.
Proof.
  induction fuel as [|fuel IH]; intro pos; simpl.
  - intros i Hi. lia.
  - destruct (Z.gtb_spec (draw_source (rand pos) nodecnt) nodecnt) as [Hgt|Hle].
    + specialize (IH (S pos)).
      destruct (sample_source rand fuel nodecnt (S pos)) as [[v pos']|].
      * destruct IH as (n & Hn & Hpos & Hv & Hle & Hrej).
        exists (S n). rewrite Nat.add_succ_r.
        repeat split; try assumption; try lia.
        intros [|i] Hi; [rewrite Nat.add_0_r; lia|].
        rewrite Nat.add_succ_r. apply Hrej. lia.
      * intros [|i] Hi; [rewrite Nat.add_0_r; lia|].
        rewrite Nat.add_succ_r. apply IH. lia.
    + exists 0%nat. rewrite Nat.add_0_r.
      repeat split; try lia; intros; lia.
Qed.

Lemma sample_source_first nodecnt fuel pos :
  draw_source (rand pos) nodecnt <= nodecnt ->
  sample_source rand (S fuel) nodecnt pos =
  Some (draw_source (rand pos) nodecnt, S pos).
Proof.
  intro Hle. simpl.
  destruct (Z.gtb_spec (draw_source (rand pos) nodecnt) nodecnt); [lia | reflexivity].
Qed.

Lemma fill_sources_fault fuel range diameter nodecnt n : forall j pos src rng f,
  fill_sources MAXQUERY rand fuel n j range diameter nodecnt pos src rng = Fault f ->
  f = OutOfBounds /\ MAXQUERY < j + Z.of_nat n.
Proof.
  induction n as [|n IH]; intros j pos src rng f Hf; simpl in Hf; [discriminate|].
  destruct (Z.leb_spec MAXQUERY j).
  - inversion Hf. split; [reflexivity | lia].
  - destruct (sample_source rand fuel nodecnt pos) as [[v pos']|]; [|discriminate].
    apply IH in Hf. destruct Hf as [-> Hlt]. split; [reflexivity | lia].
Qed.

Lemma fill_sources_accepting (P : Z -> Prop) fuel range diameter nodecnt :
  (forall i, draw_source (rand i) nodecnt <= nodecnt /\
             P (draw_source (rand i) nodecnt)) ->
  forall n j pos src rng,
  j + Z.of_nat n <= MAXQUERY ->
  exists news,
    fill_sources MAXQUERY rand (S fuel) n j range diameter nodecnt pos src rng =
    Done (src ++ news, rng ++ repeat (F32.mul range diameter) n, (pos + n)%nat) /\
    length news = n /\ Forall P news.
Proof.
  intros Hdraw. induction n as [|n IH]; intros j pos src rng Hj.
  - exists []. simpl. rewrite !app_nil_r, Nat.add_0_r. repeat split. constructor.
  - cbn [fill_sources].
    destruct (Z.leb_spec MAXQUERY j); [lia|].
    rewrite sample_source_first by apply Hdraw.
    destruct (IH (j + 1) (S pos) (src ++ [draw_source (rand pos) nodecnt])
                (rng ++ [F32.mul range diameter])) as (news & Hfill & Hlen & HP);
      [lia|].
    exists (draw_source (rand pos) nodecnt :: news).
    rewrite Hfill, <- !app_assoc. simpl.
    rewrite Nat.add_succ_r. repeat split.
    + now rewrite Hlen.
    + constructor; [apply Hdraw | assumption].
Qed.

End Sampler.

(** A list that is longer than another one and has no repetition holds an
    element that the other one lacks. *)
Lemma fresh_element (l l' : list Z) :
  NoDup l -> (length l' < length l)%nat -> exists x, In x l /\ ~ In x l'.
Proof.
  intros Hnd Hlen.
  destruct (Exists_dec (fun x => ~ In x l') l) as [Hex|Hno].
  - intro x. destruct (in_dec Z.eq_dec x l'); [right | left]; tauto.
  - apply Exists_exists in Hex. exact Hex.
  - exfalso.
    assert (Hincl : incl l l').
    { intros x Hx. destruct (in_dec Z.eq_dec x l') as [|Hnin]; [assumption|].
      exfalso. apply Hno. apply Exists_exists. eauto. }
    pose proof (NoDup_incl_length Hnd Hincl). lia.
Qed.

End SamplerFacts.

Module Workload.
Import Machine Harness SamplerFacts.
Local Open Scope Z_scope.

(** C5.  With 5 sources, range fraction 0.1, diameter 50.0 and 1000 nodes the
    generation returns exactly 5 source ids and 5 ranges, using 5 values of
    [rand()]; every source id lies in [0, 1000) and every range is exactly
    5.0.  ([rand()] is never negative, and the arrays hold at least 5
    entries.) *)
Theorem workload_bounds (MAXQUERY : Z) (rand : nat -> Z) (fuel pos : nat)
  (Hmax : 5 <= MAXQUERY) (Hrand : forall i, 0 <= rand i)
  (Hfuel : (0 < fuel)%nat) :
  exists src rng,
    generate_sources MAXQUERY rand fuel 5 F32.tenth (F32.of_int 50) 1000 pos =
      Done (src, rng, (pos + 5)%nat) /\
    length src = 5%nat /\ length rng = 5%nat /\
    Forall (fun v => 0 <= v < 1000) src /\
    Forall (fun r => r = F32.of_int 5) rng.
Proof.
  destruct fuel as [|fuel]; [lia|].
  destruct (@fill_sources_accepting MAXQUERY rand (fun v => 0 <= v < 1000) fuel
              F32.tenth (F32.of_int 50) 1000) with
    (n := 5%nat) (j := 0) (pos := pos) (src := @nil Z) (rng := @nil spec_float)
    as (news & Hfill & Hlen & Hall).
  - intro i. unfold draw_source.
    pose proof (scaled_id_1000 (rem_1000_range (Hrand i))). lia.
  - simpl. lia.
  - exists news, (repeat (F32.mul F32.tenth (F32.of_int 50)) 5).
    unfold generate_sources. change (Z.to_nat 5) with 5%nat.
    rewrite Hfill. repeat split; try assumption.
    repeat constructor.
Qed.

Lemma workload_bounds_witness :
  exists src rng,
    generate_sources Setting.MAXQUERY Setting.rand 1 5 F32.tenth
      (F32.of_int 50) 1000 0 = Done (src, rng, 5%nat) /\
    Forall (fun v => 0 <= v < 1000) src /\
    Forall (fun r => r = F32.of_int 5) rng.
Proof.
  assert (Hrand : forall i, 0 <= Setting.rand i).
  { intro i. unfold Setting.rand. apply Z.mod_pos_bound. lia. }
  destruct (@workload_bounds Setting.MAXQUERY Setting.rand 1 0
              ltac:(unfold Setting.MAXQUERY; lia) Hrand ltac:(lia))
    as (src & rng & Hgen & _ & _ & Hsrc & Hrng).
  exists src, rng. repeat split; assumption.
Defined.




(** C9.  For a positive node count every id that the sampler returns is
    [(int)((k/1000.0f)*nodecnt)] for some [k] in [0, 1000); so all of them
    lie in one list of at most 1000 ids, and once there are more than 1000
    nodes some node id in [0, nodecnt) is never returned. *)
Theorem sampler_reaches_1000_ids (rand : nat -> Z) (nodecnt : Z)
  (Hrand : forall i, 0 <= rand i) (Hpos : 0 < nodecnt) :
  (forall fuel pos v pos',
     sample_source rand fuel nodecnt pos = Some (v, pos') ->
     exists k, 0 <= k < 1000 /\ v = scaled_id k nodecnt) /\
  (length (reachable_ids nodecnt) <= 1000)%nat /\
  (forall fuel pos v pos',
     sample_source rand fuel nodecnt pos = Some (v, pos') ->
     In v (reachable_ids nodecnt)) /\
  (1000 < nodecnt ->
   exists id, 0 <= id < nodecnt /\
     forall fuel pos v pos',
       sample_source rand fuel nodecnt pos = Some (v, pos') -> v <> id).
Proof.
  assert (Hform : forall fuel pos v pos',
     sample_source rand fuel nodecnt pos = Some (v, pos') ->
     exists k, 0 <= k < 1000 /\ v = scaled_id k nodecnt).
  { intros fuel pos v pos' Hs.
    pose proof (sample_source_spec rand nodecnt fuel pos) as Hspec.
    rewrite Hs in Hspec. destruct Hspec as (n & _ & _ & Hv & _).
    exists (Z.rem (rand (pos + n)%nat) 1000). split; [|exact Hv].
    apply rem_1000_range, Hrand. }
  assert (Hin : forall fuel pos v pos',
     sample_source rand fuel nodecnt pos = Some (v, pos') ->
     In v (reachable_ids nodecnt)).
  { intros fuel pos v pos' Hs.
    destruct (Hform _ _ _ _ Hs) as (k & Hk & ->).
    now apply scaled_id_reachable. }
  split; [exact Hform|]. split; [|split; [exact Hin|]].
  - unfold reachable_ids. rewrite length_map, length_seq. lia.
  - intro Hbig.
    destruct (@fresh_element (map Z.of_nat (seq 0 1001)) (reachable_ids nodecnt))
      as (id & Hid & Hfresh).
    + apply Injective_map_NoDup; [|apply seq_NoDup].
      intros a b Hab. lia.
    + unfold reachable_ids. rewrite !length_map, !length_seq. lia.
    + exists id. split.
      * apply in_map_iff in Hid. destruct Hid as (n & <- & Hn).
        apply in_seq in Hn. lia.
      * intros fuel pos v pos' Hs ->. apply Hfresh. eapply Hin; eassumption.
Qed.

Lemma sampler_reaches_1000_ids_witness :
  exists id, 0 <= id < 2000 /\
    forall fuel pos v pos',
      sample_source Setting.rand fuel 2000 pos = Some (v, pos') -> v <> id.
Proof.
  assert (Hrand : forall i, 0 <= Setting.rand i).
  { intro i. unfold Setting.rand. apply Z.mod_pos_bound. lia. }
  destruct (@sampler_reaches_1000_ids Setting.rand 2000 Hrand ltac:(lia))
    as (_ & _ & _ & Hmiss).
  apply Hmiss. lia.
Defined.

End Workload.

(** ** Loading the object file *)

Module LoaderFacts.
Import Machine IStream Harness.
Local Open Scope Z_scope.

Lemma digit_char c :
  is_digit c = true ->
  isspace c = false /\ Ascii.eqb c "-" = false /\ Ascii.eqb c "+" = false /\
  digit_of c = Some (Z.of_N (N_of_ascii c) - 48).
Proof.
  destruct c as [[] [] [] [] [] [] [] []]; vm_compute; intro H;
    try discriminate H; repeat split; reflexivity.
Qed.

Lemma digit_value c : is_digit c = true -> 0 <= Z.of_N (N_of_ascii c) - 48.
Proof.
  unfold is_digit, digit_of.
  destruct (Z.leb_spec 48 (Z.of_N (N_of_ascii c))); cbn [andb];
    [intros _; lia | discriminate].
Qed.

Lemma read_digits_token tok : forall rest acc cnt,
  forallb is_digit tok = true -> stops rest ->
  read_digits (tok ++ rest) acc cnt =
  (fold_left (fun a c => 10 * a + (Z.of_N (N_of_ascii c) - 48)) tok acc,
   (cnt + length tok)%nat, rest).
Proof.
  induction tok as [|c tok IH]; intros rest acc cnt Hdig Hstop; simpl.
  - rewrite Nat.add_0_r. destruct rest as [|c rest]; [reflexivity|].
    simpl in Hstop. unfold is_digit in Hstop. simpl.
    destruct (digit_of c); [discriminate | reflexivity].
  - simpl in Hdig. apply andb_true_iff in Hdig. destruct Hdig as [Hc Htok].
    destruct (digit_char c Hc) as (_ & _ & _ & ->).
    rewrite IH by assumption. f_equal. f_equal. lia.
Qed.

Lemma fold_digits_nonneg tok : forall acc,
  0 <= acc -> forallb is_digit tok = true ->
  0 <= fold_left (fun a c => 10 * a + (Z.of_N (N_of_ascii c) - 48)) tok acc.
Proof.
  induction tok as [|c tok IH]; intros acc Hacc Hdig; cbn [fold_left];
    [assumption|].
  simpl in Hdig. apply andb_true_iff in Hdig. destruct Hdig as [Hc Htok].
  apply IH; [|assumption]. pose proof (digit_value c Hc). lia.
Qed.

(** Extracting a token that is in front, after any white space. *)
Lemma extract_token ws tok rest old :
  forallb isspace ws = true -> token tok -> stops rest ->
  extract_int {| buf := ws ++ tok ++ rest; eofbit := false; failbit := false |} old =
  ({| buf := rest; eofbit := at_end rest; failbit := false |}, decimal tok).
Proof.
  intros Hws (Hne & Hdig & Hmax) Hstop.
  unfold extract_int. cbn [eofbit failbit buf orb].
  assert (Hskip : skip_ws (ws ++ tok ++ rest) = tok ++ rest).
  { clear old. induction ws as [|w ws IH]; simpl.
    - destruct tok as [|c tok]; [congruence|]. simpl in *.
      apply andb_true_iff in Hdig. destruct Hdig as [Hc _].
      destruct (digit_char c Hc) as (-> & _). reflexivity.
    - simpl in Hws. apply andb_true_iff in Hws. destruct Hws as [-> Hws].
      now apply IH. }
  rewrite Hskip.
  destruct tok as [|c tok]; [congruence|].
  cbn [app].
  pose proof Hdig as Hdig'. simpl in Hdig'.
  apply andb_true_iff in Hdig'. destruct Hdig' as [Hc _].
  destruct (digit_char c Hc) as (_ & -> & -> & _). cbn [orb].
  change (c :: tok ++ rest) with ((c :: tok) ++ rest).
  rewrite read_digits_token by assumption.
  fold (decimal (c :: tok)).
  cbn [length Nat.add].
  pose proof (fold_digits_nonneg (c :: tok) (Z.le_refl 0) Hdig) as Hpos.
  fold (decimal (c :: tok)) in Hpos.
  destruct (Z.gtb_spec (decimal (c :: tok)) INT_MAX); [lia|].
  destruct (Z.ltb_spec (decimal (c :: tok)) INT_MIN);
    [unfold INT_MIN in *; lia | reflexivity].
Qed.

(** Extracting from what is left after the last complete record: white
    space only, or a last token that runs to the end of the input.  Either
    way the stream reports the end of the input. *)
Lemma extract_at_end ws last old :
  forallb isspace ws = true -> last = [] \/ token last ->
  eofbit (fst (extract_int
                 {| buf := ws ++ last; eofbit := false; failbit := false |} old))
  = true.
Proof.
  intros Hws [->|Hlast].
  - unfold extract_int. cbn [eofbit failbit buf orb]. rewrite app_nil_r.
    assert (Hskip : skip_ws ws = []).
    { induction ws as [|w ws IH]; [reflexivity|]. simpl in *.
      apply andb_true_iff in Hws. destruct Hws as [-> Hws]. now apply IH. }
    rewrite Hskip. reflexivity.
  - pose proof (@extract_token ws last [] old Hws Hlast I) as E.
    rewrite app_nil_r in E. rewrite E. reflexivity.
Qed.

Lemma add32_16 n :
  add32 (wrap32 (16 * Z.of_nat n)) 16 = wrap32 (16 * Z.of_nat (S n)).
Proof.
  unfold add32, wrap32. f_equal.
  rewrite Nat2Z.inj_succ.
  replace ((16 * Z.of_nat n + 2147483648) mod 4294967296 - 2147483648 + 16 + 2147483648)
    with ((16 * Z.of_nat n + 2147483648) mod 4294967296 + 16) by lia.
  rewrite Zplus_mod_idemp_l. f_equal. lia.
Qed.

Section Loader.
Variable indeterminate : Z.
Variable getNode : Z -> option Node.

Lemma load_objects_records recs : forall ws last fuel n smap,
  Forall (loadable getNode) recs ->
  forallb isspace ws = true -> last = [] \/ token last ->
  (length recs < fuel)%nat ->
  load_objects indeterminate getNode fuel
    {| buf := ws ++ render recs ++ last; eofbit := false; failbit := false |}
    (wrap32 (16 * Z.of_nat n)) smap =
  Done (wrap32 (16 * Z.of_nat (n + length recs)), smap ++ entries getNode recs).
Proof.
  induction recs as [|[a b] recs IH]; intros ws last fuel n smap Hrecs Hws Hlast Hfuel.
  - destruct fuel as [|fuel]; [simpl in Hfuel; lia|].
    cbn [load_objects render flat_map app entries map length].
    pose proof (@extract_at_end ws last indeterminate Hws Hlast) as Heof.
    destruct (extract_int _ indeterminate) as [fobj1 nodeid].
    simpl in Heof. rewrite Heof, Nat.add_0_r, app_nil_r. reflexivity.
  - destruct fuel as [|fuel]; [simpl in Hfuel; lia|].
    inversion Hrecs as [|? ? (Ha & Hb & Hnode) Hrecs']; subst. simpl in Ha, Hb, Hnode.
    cbn [load_objects render flat_map fst snd]. fold (render recs).
    rewrite <- !app_assoc.
    rewrite (@extract_token ws a _ indeterminate Hws Ha)
      by (cbn [app]; reflexivity).
    cbn [eofbit at_end app]. rewrite <- !app_assoc. cbn [app].
    pose proof (@extract_token [" "%char] b ("010"%char :: render recs ++ last)
                  indeterminate eq_refl Hb eq_refl) as E.
    cbn [app] in E. rewrite E. clear E.
    destruct (getNode (decimal a)) as [node|] eqn:Hget; [|congruence].
    rewrite add32_16.
    change ("010"%char :: render recs ++ last)
      with (["010"%char] ++ render recs ++ last).
    rewrite (IH ["010"%char] last fuel (S n)); try assumption;
      [|reflexivity | simpl in Hfuel; lia].
    unfold addObject, entries, coordinates. cbn [map fst snd length].
    rewrite Hget, <- app_assoc, Nat.add_succ_r. reflexivity.
Qed.

End Loader.
End LoaderFacts.

Module ObjectFile.
Import Machine IStream Harness LoaderFacts.
Local Open Scope Z_scope.

(** C7 (as the driver has it).  When the object file is a sequence of
    complete records followed by one more node id that runs up to the end of
    the input, loading raises no error: it returns the index of the complete
    records, the trailing node id is dropped, and the whole run goes on
    exactly as it does on the file without that node id. *)
Theorem trailing_node_id_is_dropped (indeterminate : Z)
  (getNode : Z -> option Node) (recs : list (list ascii * list ascii))
  (last : list ascii) (fuel : nat)
  (Hrecs : Forall (loadable getNode) recs) (Hlast : token last)
  (Hfuel : (length recs < fuel)%nat) :
  load_objects indeterminate getNode fuel (open (render recs ++ last)) 0 [] =
    Done (wrap32 (16 * Z.of_nat (length recs)), entries getNode recs) /\
  forall MAXQUERY rand (world : Type)
    (groupRangeSearch :
       world -> SpatialMapping -> list Z -> list spec_float -> Z -> Z -> Z ->
       search_outcome * world)
    (graph_diameter : world -> spec_float * list PageId * world)
    (w0 : world) graphsize nodecnt idxtime numquery numsrc range,
    main MAXQUERY rand indeterminate getNode groupRangeSearch graph_diameter
      fuel w0 graphsize nodecnt idxtime (render recs ++ last)
      numquery numsrc range =
    main MAXQUERY rand indeterminate getNode groupRangeSearch graph_diameter
      fuel w0 graphsize nodecnt idxtime (render recs)
      numquery numsrc range.
Proof.
  assert (Hwith :
    load_objects indeterminate getNode fuel (open (render recs ++ last)) 0 [] =
    Done (wrap32 (16 * Z.of_nat (length recs)), entries getNode recs)).
  { apply (@load_objects_records indeterminate getNode recs [] last fuel 0%nat []);
      auto. }
  assert (Hwithout :
    load_objects indeterminate getNode fuel (open (render recs)) 0 [] =
    Done (wrap32 (16 * Z.of_nat (length recs)), entries getNode recs)).
  { pose proof (@load_objects_records indeterminate getNode recs [] [] fuel
                  0%nat [] Hrecs eq_refl (or_introl eq_refl) Hfuel) as H.
    rewrite app_nil_r in H. exact H. }
  split; [exact Hwith|].
  intros. unfold main. now rewrite Hwith, Hwithout.
Qed.

Lemma trailing_node_id_is_dropped_witness :
  load_objects 0 Setting.getNode 10
    (open (list_ascii_of_string "3 101" ++ ["010"%char]
           ++ list_ascii_of_string "7")) 0 [] =
  Done (16, [mk_object 101 3 (F32.of_int 3) (F32.of_int 6)]).
Proof.
  assert (Htok : forall t, t <> [] -> forallb is_digit t = true ->
                           (decimal t <=? INT_MAX) = true -> token t).
  { intros t H1 H2 H3. repeat split; [assumption | assumption |].
    now apply Z.leb_le. }
  assert (Hrecs : Forall (loadable Setting.getNode)
                    [(list_ascii_of_string "3", list_ascii_of_string "101")]).
  { constructor; [|constructor]. repeat split; simpl;
      try discriminate; try reflexivity; vm_compute; discriminate. }
  assert (Hlast : token (list_ascii_of_string "7")).
  { apply Htok; [discriminate | reflexivity | reflexivity]. }
  exact (proj1 (@trailing_node_id_is_dropped 0 Setting.getNode _ _ 10
                  Hrecs Hlast ltac:(simpl; lia))).
Defined.

(** C7 as stated wants loading to fail on a trailing partial record and not
    to drop it.  On the text ["3 101\n7"] loading succeeds with the one
    complete record in the index: the node id 7 is dropped without a word. *)
Lemma partial_record_silently_dropped :
  load_objects 0 Setting.getNode 10
    (open (list_ascii_of_string "3 101" ++ ["010"%char]
           ++ list_ascii_of_string "7")) 0 [] =
  Done (16, [mk_object 101 3 (F32.of_int 3) (F32.of_int 6)]).
Proof. vm_compute. reflexivity. Qed.

(** With a newline after the trailing node id the loop does not leave at
    its eof check: the second extraction fails, the object id keeps whatever
    the uninitialised variable held (here 77), and that record goes into the
    index. *)
Example partial_record_before_newline :
  load_objects 77 Setting.getNode 10
    (open (list_ascii_of_string "3 101" ++ ["010"%char]
           ++ list_ascii_of_string "7" ++ ["010"%char])) 0 [] =
  Done (32, [mk_object 101 3 (F32.of_int 3) (F32.of_int 6);
             mk_object 77 7 (F32.of_int 7) (F32.of_int 14)]).
Proof. vm_compute. reflexivity. Qed.

End ObjectFile.

(** ** The report *)

Module Report.
Import Machine Harness.
Local Open Scope Z_scope.

Lemma int_avg_positive total numquery :
  0 < numquery -> int_avg total numquery = Done (VInt (Z.quot total numquery)).
Proof.
  intro Hq. unfold int_avg, int_div.
  destruct (Z.eqb_spec numquery 0); [lia|].
  destruct (Z.eqb_spec numquery (-1)); [lia|].
  rewrite andb_false_r. reflexivity.
Qed.

(** C2, on the driver.  With [numquery = 0] the loop body never runs, the
    averages of the [float] and [double] fields are 0/0, which is a NaN, and
    the first per-capacity average divides the [int] 0 by the [int] 0: the
    report ends there with a division fault, the six per-capacity fields
    unwritten. *)
Theorem zero_queries_divide_by_zero (idxtime : spec_float)
  (graphsize objsize : Z) :
  report idxtime graphsize objsize 0 totals_init =
    ([ ("idxtime:,", VFloat idxtime);
       (",graphsize:,", VInt graphsize);
       (",objsize:,", VInt objsize);
       (",#query:,", VInt 0);
       (",qtime:,", VFloat S754_nan);
       (",#res:,", VDouble S754_nan);
       (",node:,", VDouble S754_nan);
       (",edge:,", VDouble S754_nan) ]%string,
     Some DivideByZero) /\
  forall MAXQUERY rand (world : Type)
    (groupRangeSearch :
       world -> SpatialMapping -> list Z -> list spec_float -> Z -> Z -> Z ->
       search_outcome * world)
    fuel smap numsrc range diameter nodecnt (m : machine world),
    run_queries MAXQUERY rand groupRangeSearch fuel (Z.to_nat 0) smap numsrc
      range diameter nodecnt m = Done m.
Proof. split; reflexivity. Qed.

(** The same on a whole run: two objects loaded, no query asked for. *)
Example main_zero_queries :
  main Setting.MAXQUERY Setting.rand 0 Setting.getNode Setting.groupRangeSearch
    Setting.graph_diameter 10 tt 100 1000 (F32.of_int 1)
    (list_ascii_of_string "3 101 7 102") 0 5 F32.tenth =
  Done ([],
        ([ ("idxtime:,", VFloat (F32.of_int 1));
           (",graphsize:,", VInt 100);
           (",objsize:,", VInt 32);
           (",#query:,", VInt 0);
           (",qtime:,", VFloat S754_nan);
           (",#res:,", VDouble S754_nan);
           (",node:,", VDouble S754_nan);
           (",edge:,", VDouble S754_nan) ]%string,
         Some DivideByZero)).
Proof. vm_compute. reflexivity. Qed.

(** C10.  For a positive query count the report is written in full; its six
    per-capacity averages are the [int] quotients of the totals by the query
    count, truncated toward zero (9 hits over 10 queries give 0), while the
    averages of the query time, the result count and the node and edge
    accesses are floating-point quotients (9 over 10 gives the double nearest
    to 0.9). *)
Theorem report_averages (idxtime : spec_float)
  (graphsize objsize numquery : Z) (t : totals) (Hq : 0 < numquery) :
  report idxtime graphsize objsize numquery t =
    ([ ("idxtime:,", VFloat idxtime);
       (",graphsize:,", VInt graphsize);
       (",objsize:,", VInt objsize);
       (",#query:,", VInt numquery);
       (",qtime:,", VFloat (F32.div (totaltime t) (F32.of_int numquery)));
       (",#res:,",
        VDouble (F64.div (F64.mul (F64.of_int (resultsize t)) (F64.of_int 1))
                         (F64.of_int numquery)));
       (",node:,",
        VDouble (F64.div (F64.mul (F64.of_int (totalnodeaccess t)) (F64.of_int 1))
                         (F64.of_int numquery)));
       (",edge:,",
        VDouble (F64.div (F64.mul (F64.of_int (totaledgeaccess t)) (F64.of_int 1))
                         (F64.of_int numquery)));
       (",lru1:,", VInt (Z.quot (totallru1 t) numquery));
       (",lru10:,", VInt (Z.quot (totallru10 t) numquery));
       (",lru20:,", VInt (Z.quot (totallru20 t) numquery));
       (",lru30:,", VInt (Z.quot (totallru30 t) numquery));
       (",lru40:,", VInt (Z.quot (totallru40 t) numquery));
       (",lru50:,", VInt (Z.quot (totallru50 t) numquery)) ]%string,
     None) /\
  (forall total q, int_avg total numquery = Done (VInt q) ->
     Z.abs (q * numquery) <= Z.abs total < Z.abs (q * numquery) + numquery /\
     0 <= q * total) /\
  int_avg 9 10 = Done (VInt 0) /\
  double_avg 9 10 = Done (VDouble (S754_finite false 8106479329266893 (-53))).
Proof.
  split; [|split; [|split; reflexivity]].
  - unfold report. rewrite !int_avg_positive by assumption. reflexivity.
  - intros total q Havg. rewrite int_avg_positive in Havg by assumption.
    inversion Havg; subst q. clear Havg.
    pose proof (Z.quot_rem total numquery ltac:(lia)) as Hqr.
    destruct (Z.le_gt_cases 0 total) as [Hnn|Hneg].
    + pose proof (Z.rem_bound_pos total numquery Hnn Hq).
      pose proof (Z.quot_pos total numquery Hnn Hq). nia.
    + assert (Hq' : total ÷ numquery <= 0).
      { rewrite <- (Z.opp_involutive total), Z.quot_opp_l by lia.
        pose proof (Z.quot_pos (- total) numquery ltac:(lia) Hq). lia. }
      assert (numquery * -1 < Z.rem total numquery <= 0).
      { pose proof (Z.rem_opp_l total numquery ltac:(lia)) as Ho.
        pose proof (Z.rem_bound_pos (- total) numquery ltac:(lia) Hq). lia. }
      nia.
Qed.

Lemma report_averages_witness :
  snd (report (F32.of_int 1) 100 32 10
         (mk_totals (F32.of_int 3) 7 9 9 9 9 9 9 9 9)) = None.
Proof.
  rewrite (proj1 (@report_averages (F32.of_int 1) 100 32 10
                    (mk_totals (F32.of_int 3) 7 9 9 9 9 9 9 9 9) ltac:(lia))).
  reflexivity.
Defined.

End Report.

(** ** More on loading the object file *)

Module LoaderMore.
Import Machine IStream Harness LoaderFacts ObjectText.
Local Open Scope Z_scope.

Lemma space_not_digit c : isspace c = true -> is_digit c = false.
Proof.
  destruct c as [[] [] [] [] [] [] [] []]; vm_compute; intro H;
    try discriminate H; reflexivity.
Qed.

Lemma blank_stops ws rest : blank ws -> stops (ws ++ rest).
Proof.
  intros [Hne Hws]. destruct ws as [|c ws]; [congruence|].
  simpl in *. apply andb_true_iff in Hws. now apply space_not_digit.
Qed.

Lemma blank_not_at_end ws rest : blank ws -> at_end (ws ++ rest) = false.
Proof. intros [Hne _]. destruct ws; [congruence | reflexivity]. Qed.

Lemma wrap32_0 : wrap32 (16 * Z.of_nat 0) = 0.
Proof. reflexivity. Qed.

Section Loader.
Variable indeterminate : Z.
Variable getNode : Z -> option Node.

(** More fuel does not change a result. *)
Lemma load_objects_fuel fuel : forall k fobj objsize smap r,
  load_objects indeterminate getNode fuel fobj objsize smap = Done r ->
  load_objects indeterminate getNode (fuel + k) fobj objsize smap = Done r.
Proof.
  induction fuel as [|fuel IH]; intros k fobj objsize smap r H;
    [discriminate H|].
  cbn [load_objects Nat.add] in *.
  destruct (extract_int fobj indeterminate) as [fobj1 nodeid].
  destruct (eofbit fobj1); [assumption|].
  destruct (extract_int fobj1 indeterminate) as [fobj2 objid].
  destruct (getNode nodeid); [|discriminate H].
  now apply IH.
Qed.

(** A stream that has failed without reaching the end of its input stays
    that way, and the loop has no way out. *)
Lemma load_objects_stuck fuel : forall fobj objsize smap,
  failbit fobj = true -> eofbit fobj = false ->
  load_objects indeterminate getNode fuel fobj objsize smap = OutOfFuel \/
  load_objects indeterminate getNode fuel fobj objsize smap = Fault NotFound.
Proof.
  induction fuel as [|fuel IH]; intros fobj objsize smap Hfail Heof;
    [left; reflexivity|].
  cbn [load_objects]. unfold extract_int.
  rewrite Hfail, Heof. cbn [orb eofbit failbit].
  destruct (getNode indeterminate); [|right; reflexivity].
  apply IH; reflexivity.
Qed.

(** The complete records at the front of a file are loaded one per round,
    whatever follows them. *)
Lemma load_objects_front recs : forall ws tail fuel n smap,
  Forall (well_formed getNode) recs -> forallb isspace ws = true ->
  exists ws', forallb isspace ws' = true /\
    load_objects indeterminate getNode (length recs + fuel)
      {| buf := ws ++ records_chars recs ++ tail;
         eofbit := false; failbit := false |}
      (wrap32 (16 * Z.of_nat n)) smap =
    load_objects indeterminate getNode fuel
      {| buf := ws' ++ tail; eofbit := false; failbit := false |}
      (wrap32 (16 * Z.of_nat (n + length recs)))
      (smap ++ entries getNode (pairs recs)).
Proof.
  induction recs as [|[a s b t] recs IH]; intros ws tail fuel n smap Hrecs Hws.
  - exists ws. split; [assumption|].
    cbn [length Nat.add records_chars flat_map app pairs map entries].
    now rewrite Nat.add_0_r, app_nil_r.
  - inversion Hrecs as [|? ? (Ha & Hs & Hb & Ht & Hnode) Hrecs']; subst.
    cbn [rt_node rt_sep rt_obj rt_trail] in Ha, Hs, Hb, Ht, Hnode.
    destruct (IH t tail fuel (S n)
                (addObject smap (decimal b) (decimal a)
                   (m_x (coordinates getNode (decimal a)))
                   (m_y (coordinates getNode (decimal a))))
                Hrecs' (proj2 Ht)) as (ws' & Hws' & Hload).
    exists ws'. split; [assumption|].
    cbn [length Nat.add load_objects records_chars flat_map record_chars
         rt_node rt_sep rt_obj rt_trail].
    fold (records_chars recs). unfold record_chars.
    cbn [rt_node rt_sep rt_obj rt_trail].
    rewrite <- !app_assoc.
    rewrite (@extract_token ws a _ indeterminate Hws Ha)
      by (apply blank_stops; assumption).
    cbn [eofbit]. rewrite (blank_not_at_end _ Hs).
    rewrite (@extract_token s b _ indeterminate (proj2 Hs) Hb)
      by (apply blank_stops; assumption).
    rewrite (blank_not_at_end _ Ht).
    unfold coordinates in Hload.
    destruct (getNode (decimal a)) as [node|] eqn:Hget; [|congruence].
    rewrite add32_16, Hload. clear Hload.
    unfold addObject, entries, coordinates.
    cbn [pairs map fst snd length rt_node rt_obj]. rewrite Hget.
    cbn [m_x m_y].
    rewrite <- app_assoc, Nat.add_succ_r. reflexivity.
Qed.

End Loader.
End LoaderMore.

Module ObjectFileMore.
Import Machine IStream Harness LoaderFacts ObjectText LoaderMore.
Local Open Scope Z_scope.

Lemma skip_ws_junk ws c rest :
  forallb isspace ws = true -> isspace c = false ->
  skip_ws (ws ++ c :: rest) = c :: rest.
Proof.
  intros Hws Hc. induction ws as [|w ws IH]; simpl.
  - now rewrite Hc.
  - simpl in Hws. apply andb_true_iff in Hws. destruct Hws as [-> Hws].
    now apply IH.
Qed.

Lemma load_objects_tracks_size indeterminate getNode fuel :
  forall fobj n smap objsize' smap',
  load_objects indeterminate getNode fuel fobj (wrap32 (16 * Z.of_nat n)) smap =
    Done (objsize', smap') ->
  exists added, smap' = smap ++ added /\
    objsize' = wrap32 (16 * Z.of_nat (n + length added)) /\
    Forall (on_graph getNode) added.
Proof.
  induction fuel as [|fuel IH]; intros fobj n smap objsize' smap' H;
    [discriminate H|].
  cbn [load_objects] in H.
  destruct (extract_int fobj indeterminate) as [fobj1 nodeid].
  destruct (eofbit fobj1).
  - inversion H; subst. exists []. rewrite app_nil_r, Nat.add_0_r.
    repeat split. constructor.
  - destruct (extract_int fobj1 indeterminate) as [fobj2 objid].
    destruct (getNode nodeid) as [node|] eqn:Hget; [|discriminate H].
    rewrite add32_16 in H. apply IH in H.
    destruct H as (added & -> & -> & Hall).
    exists (mk_object objid nodeid (m_x node) (m_y node) :: added).
    unfold addObject. rewrite <- app_assoc. cbn [app length].
    rewrite Nat.add_succ_r. repeat split.
    constructor; [|assumption].
    unfold on_graph. cbn [o_nodeid o_x o_y]. rewrite Hget.
    destruct node; reflexivity.
Qed.

(** X1.  An object file whose numbers are set apart by any white space
    (blanks, tabs, newlines, in any mix), with or without white space at its
    start and after its last number, loads record by record: the index holds
    exactly the records of the file, in their order, each at the coordinates
    of its node, and [objsize] is 16 times their number. *)
Theorem load_objects_any_layout (indeterminate : Z)
  (getNode : Z -> option Node) (ws0 : list ascii) (recs : list record_text)
  (final : option (list ascii * list ascii * list ascii)) (fuel : nat)
  (Hws : forallb isspace ws0 = true)
  (Hrecs : Forall (well_formed getNode) recs)
  (Hfinal : ending_ok getNode final)
  (Hfuel : (length recs + 2 <= fuel)%nat) :
  load_objects indeterminate getNode fuel
    (open (ws0 ++ records_chars recs ++ ending_chars final)) 0 [] =
  Done (wrap32 (16 * Z.of_nat (length (pairs recs ++ ending_pairs final))),
        entries getNode (pairs recs ++ ending_pairs final)).
Proof.
  replace fuel with (length recs + (2 + (fuel - length recs - 2)))%nat by lia.
  set (k := (fuel - length recs - 2)%nat).
  destruct (@load_objects_front indeterminate getNode recs ws0
              (ending_chars final) (2 + k) 0 [] Hrecs Hws) as (ws' & Hws' & Hfront).
  unfold open. rewrite <- wrap32_0. rewrite Hfront. clear Hfront.
  cbn [Nat.add app].
  assert (Hlen : length (pairs recs) = length recs)
    by (unfold pairs; apply length_map).
  destruct final as [[[a s] b]|]; cbn [ending_chars ending_pairs ending_ok] in *.
  - destruct Hfinal as (Ha & Hs & Hb & Hnode).
    cbn [load_objects].
    rewrite (@extract_token ws' a _ indeterminate Hws' Ha)
      by (apply blank_stops; assumption).
    cbn [eofbit]. rewrite (blank_not_at_end _ Hs).
    pose proof (@extract_token s b [] indeterminate (proj2 Hs) Hb I) as E.
    rewrite app_nil_r in E.
    replace (s ++ b) with (s ++ b ++ []) by now rewrite app_nil_r.
    rewrite app_nil_r. rewrite E. clear E.
    destruct (getNode (decimal a)) as [node|] eqn:Hget; [|congruence].
    rewrite add32_16. unfold extract_int. cbn [eofbit failbit at_end orb].
    unfold addObject, entries, coordinates. rewrite !map_app.
    cbn [map fst snd]. rewrite Hget, length_app, Hlen.
    cbn [length]. rewrite Nat.add_1_r. reflexivity.
  - cbn [load_objects].
    pose proof (@extract_at_end ws' [] indeterminate Hws' (or_introl eq_refl)) as E.
    destruct (extract_int _ indeterminate) as [fobj1 nodeid].
    cbn [fst] in E. rewrite E, !app_nil_r, Hlen. reflexivity.
Qed.

Lemma load_objects_any_layout_witness :
  load_objects 0 Setting.getNode 10
    (open (list_ascii_of_string "3" ++ ["009"%char]
           ++ list_ascii_of_string "101" ++ ["010"%char; " "%char]
           ++ list_ascii_of_string "7 102")) 0 [] =
  Done (32, [mk_object 101 3 (F32.of_int 3) (F32.of_int 6);
             mk_object 102 7 (F32.of_int 7) (F32.of_int 14)]).
Proof.
  assert (Htok : forall t, t <> [] -> forallb is_digit t = true ->
                           (decimal t <=? INT_MAX) = true -> token t).
  { intros t H1 H2 H3. repeat split; [assumption | assumption |].
    now apply Z.leb_le. }
  assert (Hblank : forall ws, ws <> [] -> forallb isspace ws = true -> blank ws).
  { intros ws H1 H2. now split. }
  assert (Hrecs : Forall (well_formed Setting.getNode)
            [mk_record_text (list_ascii_of_string "3") ["009"%char]
               (list_ascii_of_string "101") ["010"%char; " "%char]]).
  { constructor; [|constructor]. unfold well_formed.
    cbn [rt_node rt_sep rt_obj rt_trail].
    repeat split; simpl; try discriminate; try reflexivity;
      vm_compute; discriminate. }
  assert (Hfinal : ending_ok Setting.getNode
            (Some (list_ascii_of_string "7", [" "%char],
                   list_ascii_of_string "102"))).
  { cbn [ending_ok]. repeat split; simpl; try discriminate; try reflexivity;
      vm_compute; discriminate. }
  exact (@load_objects_any_layout 0 Setting.getNode [] _ _ 10
           eq_refl Hrecs Hfinal ltac:(simpl; lia)).
Defined.

(** X2.  Whatever the object file holds, when loading finishes [objsize] is
    16 times the number of entries of the index (as an [int]), and every
    entry of the index sits on a node that the graph knows, at that node's
    coordinates. *)
Theorem load_objects_size_and_nodes (indeterminate : Z)
  (getNode : Z -> option Node) (fuel : nat) (fobj : istream)
  (objsize : Z) (smap : SpatialMapping)
  (Hdone : load_objects indeterminate getNode fuel fobj 0 [] =
           Done (objsize, smap)) :
  objsize = wrap32 (16 * Z.of_nat (length smap)) /\
  Forall (on_graph getNode) smap.
Proof.
  rewrite <- wrap32_0 in Hdone.
  apply load_objects_tracks_size in Hdone.
  destruct Hdone as (added & -> & -> & Hall).
  now split.
Qed.

Lemma load_objects_size_and_nodes_witness :
  Forall (on_graph Setting.getNode)
    [mk_object 101 3 (F32.of_int 3) (F32.of_int 6);
     mk_object 77 7 (F32.of_int 7) (F32.of_int 14)].
Proof.
  refine (proj2 (@load_objects_size_and_nodes 77 Setting.getNode 10
                   (open (list_ascii_of_string "3 101" ++ ["010"%char]
                          ++ list_ascii_of_string "7" ++ ["010"%char]))
                   32 _ _)).
  vm_compute. reflexivity.
Defined.

(** X3.  When the complete records of an object file are followed by a
    character that cannot start a number (a letter, say), the loading loop
    never finishes: the failed extraction leaves the stream failed but not at
    its end, which the eof check of the loop does not see.  The same holds
    from any stream that has failed short of its end, as after opening a file
    that does not exist. *)
Theorem load_objects_never_ends_on_junk (indeterminate : Z)
  (getNode : Z -> option Node) (ws0 : list ascii) (recs : list record_text)
  (c : ascii) (rest : list ascii)
  (Hws : forallb isspace ws0 = true)
  (Hrecs : Forall (well_formed getNode) recs)
  (Hjunk : junk c) :
  (forall fuel r,
     load_objects indeterminate getNode fuel
       (open (ws0 ++ records_chars recs ++ c :: rest)) 0 [] <> Done r) /\
  (forall fuel fobj objsize smap r,
     failbit fobj = true -> eofbit fobj = false ->
     load_objects indeterminate getNode fuel fobj objsize smap <> Done r).
Proof.
  assert (Hstuck : forall fuel fobj objsize smap r,
     failbit fobj = true -> eofbit fobj = false ->
     load_objects indeterminate getNode fuel fobj objsize smap <> Done r).
  { intros fuel fobj objsize smap r Hfail Heof.
    destruct (@load_objects_stuck indeterminate getNode fuel fobj objsize smap
                Hfail Heof) as [-> | ->]; discriminate. }
  split; [|exact Hstuck].
  intros fuel r Hdone.
  apply (@load_objects_fuel indeterminate getNode fuel (length recs + 1)) in Hdone.
  replace (fuel + (length recs + 1))%nat with (length recs + S fuel)%nat
    in Hdone by lia.
  destruct (@load_objects_front indeterminate getNode recs ws0
              (c :: rest) (S fuel) 0 [] Hrecs Hws) as (ws' & Hws' & Hfront).
  unfold open in Hdone. rewrite <- wrap32_0 in Hdone.
  rewrite Hfront in Hdone. clear Hfront.
  destruct Hjunk as (Hsp & Hdig & Hminus & Hplus).
  cbn [load_objects] in Hdone.
  unfold extract_int at 1 in Hdone. cbn [eofbit failbit buf orb] in Hdone.
  rewrite (@skip_ws_junk ws' c rest Hws' Hsp) in Hdone.
  rewrite Hminus, Hplus in Hdone. cbn [orb read_digits] in Hdone.
  unfold is_digit in Hdig.
  destruct (digit_of c); [discriminate Hdig|].
  cbn [eofbit at_end] in Hdone.
  unfold extract_int at 1 in Hdone. cbn [eofbit failbit buf orb] in Hdone.
  destruct (getNode 0); [|discriminate Hdone].
  revert Hdone. apply Hstuck; reflexivity.
Qed.

Lemma load_objects_never_ends_on_junk_witness :
  load_objects 0 Setting.getNode 50
    (open (list_ascii_of_string "3 101 x")) 0 [] <> Done (16, []).
Proof.
  assert (Hrecs : Forall (well_formed Setting.getNode)
            [mk_record_text (list_ascii_of_string "3") [" "%char]
               (list_ascii_of_string "101") [" "%char]]).
  { constructor; [|constructor]. unfold well_formed.
    cbn [rt_node rt_sep rt_obj rt_trail].
    repeat split; simpl; try discriminate; try reflexivity;
      vm_compute; discriminate. }
  assert (Hjunk : junk "x"%char) by (repeat split).
  exact (proj1 (@load_objects_never_ends_on_junk 0 Setting.getNode [] _
                  "x"%char [] eq_refl Hrecs Hjunk) 50%nat (16, [])).
Defined.

End ObjectFileMore.

(** ** More on drawing the sources *)

Module WorkloadMore.
Import Machine Harness SamplerFacts.
Local Open Scope Z_scope.

Section Sources.
Variable MAXQUERY : Z.
Variable rand : nat -> Z.

Lemma fill_sources_shape fuel range diameter nodecnt n :
  forall j pos src rng src' rng' pos',
  fill_sources MAXQUERY rand fuel n j range diameter nodecnt pos src rng =
    Done (src', rng', pos') ->
  exists news,
    src' = src ++ news /\
    rng' = rng ++ repeat (F32.mul range diameter) n /\
    length news = n /\
    Forall (fun v => v <= nodecnt /\
                     exists i, (pos <= i < pos')%nat /\
                               v = draw_source (rand i) nodecnt) news /\
    (pos + n <= pos')%nat.
Proof.
  induction n as [|n IH]; intros j pos src rng src' rng' pos' H.
  - inversion H; subst. exists []. rewrite !app_nil_r.
    repeat split; try constructor; try lia.
  - cbn [fill_sources] in H.
    destruct (Z.leb_spec MAXQUERY j) as [|Hj]; [discriminate H|].
    pose proof (sample_source_spec rand nodecnt fuel pos) as Hspec.
    destruct (sample_source rand fuel nodecnt pos) as [[v pos1]|];
      [|discriminate H].
    destruct Hspec as (k & Hk & Hpos1 & Hv & Hle & _).
    apply IH in H.
    destruct H as (news & -> & -> & Hlen & Hall & Hpos).
    exists (v :: news). rewrite <- !app_assoc. cbn [app repeat length].
    split; [reflexivity|]. split; [reflexivity|].
    split; [now rewrite Hlen|]. split; [|lia].
    constructor.
    + split; [assumption|]. exists (pos + k)%nat. split; [lia | assumption].
    + eapply Forall_impl; [|exact Hall].
      intros w (Hw & i & Hi & Hwi). split; [assumption|].
      exists i. split; [lia | assumption].
Qed.

Lemma fill_sources_overflow fuel range diameter nodecnt :
  (forall i, draw_source (rand i) nodecnt <= nodecnt) ->
  forall n j pos src rng,
  n <> 0%nat -> MAXQUERY < j + Z.of_nat n ->
  fill_sources MAXQUERY rand (S fuel) n j range diameter nodecnt pos src rng =
  Fault OutOfBounds.
Proof.
  intros Hacc. induction n as [|n IH]; intros j pos src rng Hn Hover;
    [congruence|].
  cbn [fill_sources].
  destruct (Z.leb_spec MAXQUERY j) as [|Hj]; [reflexivity|].
  rewrite sample_source_first by apply Hacc.
  apply IH; lia.
Qed.

End Sources.

Lemma scaled_id_no_nodes k : 0 <= k < 1000 -> scaled_id k 0 = 0.
Proof.
  intro Hk.
  assert (Hall : forallb (fun v => v =? 0) (reachable_ids 0) = true)
    by (vm_compute; reflexivity).
  rewrite forallb_forall in Hall.
  apply Z.eqb_eq, Hall. now apply scaled_id_reachable.
Qed.

(** X4.  When the arrays hold the sources asked for ([numsrc] is not above
    [MAXQUERY]) and the drawing of the sources completes, there are exactly
    [numsrc] source ids and as many ranges (none for a [numsrc] of zero or
    less), every range is the product [range * diameter], every source id is
    a draw made during this call and is not above [nodecnt], and at least one
    value of [rand()] was used per source. *)
Theorem generate_sources_shape (MAXQUERY : Z) (rand : nat -> Z) (fuel : nat)
  (numsrc : Z) (range diameter : spec_float) (nodecnt : Z) (pos : nat)
  (src : list Z) (rng : list spec_float) (pos' : nat)
  (Hmax : numsrc <= MAXQUERY)
  (Hdone : generate_sources MAXQUERY rand fuel numsrc range diameter nodecnt
             pos = Done (src, rng, pos')) :
  length src = Z.to_nat numsrc /\
  rng = repeat (F32.mul range diameter) (Z.to_nat numsrc) /\
  Forall (fun v => v <= nodecnt /\
                   exists i, (pos <= i < pos')%nat /\
                             v = draw_source (rand i) nodecnt) src /\
  (pos + Z.to_nat numsrc <= pos')%nat.
Proof.
  unfold generate_sources in Hdone. apply fill_sources_shape in Hdone.
  destruct Hdone as (news & -> & -> & Hlen & Hall & Hpos).
  cbn [app]. repeat split; assumption.
Qed.

Lemma generate_sources_shape_witness :
  length [345; 264; 183; 334; 252] = Z.to_nat 5.
Proof.
  refine (proj1 (@generate_sources_shape Setting.MAXQUERY Setting.rand 1 5
                   F32.tenth (F32.of_int 50) 1000 0
                   [345; 264; 183; 334; 252] (repeat (F32.of_int 5) 5) 5
                   _ _)).
  - unfold Setting.MAXQUERY. lia.
  - vm_compute. reflexivity.
Defined.

(** X5.  The driver never compares [numsrc] with the size [MAXQUERY] of its
    arrays [src] and [rng]: when the draws are accepted, asking for at least
    one source ends in a store past the end of the arrays exactly when
    [numsrc] is larger than [MAXQUERY]. *)
Theorem generate_sources_overflow (MAXQUERY : Z) (rand : nat -> Z)
  (fuel : nat) (numsrc : Z) (range diameter : spec_float) (nodecnt : Z)
  (pos : nat)
  (Hacc : forall i, draw_source (rand i) nodecnt <= nodecnt)
  (Hfuel : (0 < fuel)%nat) (Hsrc : 0 < numsrc) :
  generate_sources MAXQUERY rand fuel numsrc range diameter nodecnt pos =
    Fault OutOfBounds <-> MAXQUERY < numsrc.
Proof.
  unfold generate_sources. split.
  - intro Hf. apply fill_sources_fault in Hf. lia.
  - intro Hover. destruct fuel as [|fuel]; [lia|].
    apply fill_sources_overflow; [assumption | lia | lia].
Qed.

Lemma generate_sources_overflow_witness :
  generate_sources Setting.MAXQUERY Setting.rand 1 11 F32.tenth
    (F32.of_int 50) 1000 0 = Fault OutOfBounds.
Proof.
  assert (Hacc : forall i, draw_source (Setting.rand i) 1000 <= 1000).
  { intro i. unfold draw_source.
    assert (0 <= Setting.rand i)
      by (unfold Setting.rand; apply Z.mod_pos_bound; lia).
    pose proof (scaled_id_1000 (rem_1000_range H)). lia. }
  apply (@generate_sources_overflow Setting.MAXQUERY Setting.rand 1 11
           F32.tenth (F32.of_int 50) 1000 0 Hacc); unfold Setting.MAXQUERY; lia.
Defined.

(** X6.  On a graph without nodes ([nodecnt = 0]) every draw gives the id 0
    and is accepted at once: each source of a query is the node id 0, which
    the graph does not have, and one value of [rand()] is used per source. *)
Theorem no_nodes_every_source_is_zero (MAXQUERY : Z) (rand : nat -> Z)
  (fuel : nat) (numsrc : Z) (range diameter : spec_float) (pos : nat)
  (Hrand : forall i, 0 <= rand i) (Hfuel : (0 < fuel)%nat)
  (Hmax : numsrc <= MAXQUERY) :
  sample_source rand fuel 0 pos = Some (0, S pos) /\
  generate_sources MAXQUERY rand fuel numsrc range diameter 0 pos =
    Done (repeat 0 (Z.to_nat numsrc),
          repeat (F32.mul range diameter) (Z.to_nat numsrc),
          (pos + Z.to_nat numsrc)%nat).
Proof.
  assert (Hdraw : forall i, draw_source (rand i) 0 = 0).
  { intro i. unfold draw_source. apply scaled_id_no_nodes.
    apply rem_1000_range, Hrand. }
  destruct fuel as [|fuel]; [lia|]. split.
  - rewrite sample_source_first by (rewrite Hdraw; lia). now rewrite Hdraw.
  - unfold generate_sources.
    destruct (Z.le_gt_cases numsrc 0) as [Hnone|Hsome].
    { replace (Z.to_nat numsrc) with 0%nat by lia.
      cbn [fill_sources repeat]. now rewrite Nat.add_0_r. }
    destruct (@fill_sources_accepting MAXQUERY rand (fun v => 0 = v) fuel
                range diameter 0) with
      (n := Z.to_nat numsrc) (j := 0) (pos := pos) (src := @nil Z)
      (rng := @nil spec_float) as (news & Hfill & Hlen & Hall).
    + intro i. rewrite Hdraw. split; [lia | reflexivity].
    + lia.
    + rewrite Hfill. cbn [app].
      apply Forall_eq_repeat in Hall. rewrite Hall, Hlen. reflexivity.
Qed.

Lemma no_nodes_every_source_is_zero_witness :
  generate_sources Setting.MAXQUERY Setting.rand 1 3 F32.tenth
    (F32.of_int 50) 0 0 =
  Done ([0; 0; 0], repeat (F32.mul F32.tenth (F32.of_int 50)) 3, 3%nat).
Proof.
  assert (Hrand : forall i, 0 <= Setting.rand i).
  { intro i. unfold Setting.rand. apply Z.mod_pos_bound. lia. }
  exact (proj2 (@no_nodes_every_source_is_zero Setting.MAXQUERY Setting.rand
                  1 3 F32.tenth (F32.of_int 50) 0 Hrand ltac:(lia)
                  ltac:(unfold Setting.MAXQUERY; lia))).
Defined.

End WorkloadMore.

(** ** The timings *)

Module FloatFacts.
Local Open Scope Z_scope.

Lemma shr_1_nonneg mrs : 0 <= shr_m mrs -> 0 <= shr_m (shr_1 mrs).
Proof.
  destruct mrs as [m r s]. destruct m as [|p|p]; simpl; intro H;
    try lia; destruct p; simpl; lia.
Qed.

Lemma iter_shr_1_nonneg p : forall mrs,
  0 <= shr_m mrs -> 0 <= shr_m (iter_pos shr_1 p mrs).
Proof.
  induction p as [p IH|p IH|]; intros mrs H; simpl.
  - apply IH, IH. now apply shr_1_nonneg.
  - now apply IH, IH.
  - now apply shr_1_nonneg.
Qed.

Lemma shr_fexp_nonneg prec emax m e l :
  0 <= m -> 0 <= shr_m (fst (shr_fexp prec emax m e l)).
Proof.
  intro H. unfold shr_fexp, shr.
  assert (Hrec : 0 <= shr_m (shr_record_of_loc m l))
    by (destruct l as [|[]]; exact H).
  destruct (fexp prec emax (Zdigits2 m + e) - e); simpl; try assumption.
  now apply iter_shr_1_nonneg.
Qed.

Lemma round_nearest_even_nonneg m l : 0 <= m -> 0 <= round_nearest_even m l.
Proof.
  intro H. destruct l as [|[]]; simpl; try assumption; try lia.
  destruct (Z.even m); lia.
Qed.

(** Rounding a magnitude that is not negative keeps the sign it is given
    and never makes a NaN. *)
Lemma binary_round_aux_sign prec emax sx mx ex lx :
  0 <= mx ->
  match binary_round_aux prec emax sx mx ex lx with
  | S754_zero s | S754_infinity s | S754_finite s _ _ => s = sx
  | S754_nan => False
  end.
Proof.
  intro H. unfold binary_round_aux.
  pose proof (@shr_fexp_nonneg prec emax mx ex lx H) as H1.
  destruct (shr_fexp prec emax mx ex lx) as [mrs' e'].
  cbn [fst] in H1.
  pose proof (@shr_fexp_nonneg prec emax
                (round_nearest_even (shr_m mrs') (loc_of_shr_record mrs'))
                e' loc_Exact
                (@round_nearest_even_nonneg _ _ H1)) as H2.
  destruct (shr_fexp prec emax _ e' loc_Exact) as [mrs'' e''].
  cbn [fst] in H2.
  destruct (shr_m mrs'') as [|p|p]; [reflexivity | | lia].
  destruct (e'' <=? emax - prec); reflexivity.
Qed.

Lemma of_int_sign prec emax z :
  0 <= z ->
  match binary_normalize prec emax z 0 false with
  | S754_zero s | S754_infinity s | S754_finite s _ _ => s = false
  | S754_nan => False
  end.
Proof.
  intro H. destruct z as [|p|p]; [reflexivity | | lia].
  unfold binary_normalize, binary_round.
  destruct (shl_align p 0 _) as [mz ez].
  apply binary_round_aux_sign. lia.
Qed.

Lemma div_sign prec emax x my ey :
  match x with
  | S754_zero s | S754_infinity s | S754_finite s _ _ => s = false
  | S754_nan => False
  end ->
  SFleb (S754_zero false) (SFdiv prec emax x (S754_finite false my ey)) = true.
Proof.
  destruct x as [s|s| |s mx ex]; intro Hs; try contradiction; subst s;
    try reflexivity.
  unfold SFdiv.
  destruct (SFdiv_core_binary prec emax (Z.pos mx) ex (Z.pos my) ey)
    as [[mz ez] lz] eqn:Hcore.
  assert (Hmz : 0 <= mz).
  { unfold SFdiv_core_binary in Hcore.
    set (m' := match _ - _ - _ with Z.pos _ => _ | 0 => _ | Z.neg _ => _ end)
      in Hcore.
    assert (Hm' : 0 <= m').
    { subst m'. destruct (_ - _ - _); try lia.
      apply Z.shiftl_nonneg. lia. }
    pose proof (Z_div_mod m' (Z.pos my) ltac:(lia)) as Hdm.
    destruct (Z.div_eucl m' (Z.pos my)) as [q r].
    inversion Hcore; subst. destruct Hdm as [Heq Hr]. nia. }
  pose proof (@binary_round_aux_sign prec emax (xorb false false) mz ez lz Hmz)
    as Hr.
  destruct (binary_round_aux prec emax (xorb false false) mz ez lz)
    as [s|s| |s m e]; try contradiction; cbn [xorb] in Hr; subst s;
    reflexivity.
Qed.

End FloatFacts.

Module Timing.
Import Machine Clock FloatFacts.
Local Open Scope Z_scope.

Lemma wrap64_small z :
  -9223372036854775808 <= z < 9223372036854775808 -> wrap64 z = z.
Proof.
  intro H. unfold wrap64.
  rewrite Z.mod_small by lia. lia.
Qed.

Lemma millis_reading t : reading t -> millis t = time t * 1000 + millitm t.
Proof.
  intros [Ht Hm]. unfold millis.
  rewrite (@wrap64_small (time t * 1000)) by lia.
  apply wrap64_small. lia.
Qed.

(** X10.  The time the driver computes from two [ftime] readings, for the
    index creation and for every query, is never negative and never a NaN
    as long as the second reading is not earlier than the first; between
    equal readings it is exactly 0. *)
Theorem elapsed_not_negative (starttime endtime : timeb)
  (Hs : reading starttime) (He : reading endtime)
  (Hord : time starttime * 1000 + millitm starttime <=
          time endtime * 1000 + millitm endtime) :
  SFleb (S754_zero false) (elapsed starttime endtime) = true /\
  elapsed starttime starttime = S754_zero false.
Proof.
  split.
  - unfold elapsed. rewrite !millis_reading by assumption.
    destruct Hs as [Hs1 Hs2], He as [He1 He2].
    rewrite wrap64_small by lia.
    change (F32.of_int 1000) with (S754_finite false 16384000 (-14)).
    apply div_sign. apply of_int_sign. lia.
  - unfold elapsed. rewrite Z.sub_diag. reflexivity.
Qed.

Lemma elapsed_not_negative_witness :
  SFleb (S754_zero false)
    (elapsed (mk_timeb 1200000000 990) (mk_timeb 1200000002 15)) = true.
Proof.
  apply (@elapsed_not_negative (mk_timeb 1200000000 990)
           (mk_timeb 1200000002 15));
    unfold reading; simpl; lia.
Defined.

End Timing.

(** ** Whole runs *)

Module RunMore.
Import Machine IStream Harness LoopFacts ObjectText LoaderMore ObjectFileMore ReportShape.
Local Open Scope Z_scope.

Lemma int_avg_nonzero total numquery :
  numquery <> 0 -> numquery <> -1 ->
  int_avg total numquery = Done (VInt (Z.quot total numquery)).
Proof.
  intros H0 H1. unfold int_avg, int_div.
  destruct (Z.eqb_spec numquery 0); [contradiction|].
  destruct (Z.eqb_spec numquery (-1)); [contradiction|].
  rewrite andb_false_r. reflexivity.
Qed.

Lemma int_avg_of_zero numquery :
  numquery <> 0 -> int_avg 0 numquery = Done (VInt 0).
Proof.
  intro H0. unfold int_avg, int_div.
  destruct (Z.eqb_spec numquery 0); [contradiction|].
  cbn [Z.eqb INT_MIN andb bind]. now rewrite Z.quot_0_l.
Qed.

Lemma emit_done label v rest :
  emit ((label, Done v) :: rest) =
  ((label, v) :: fst (emit rest), snd (emit rest)).
Proof. cbn [emit]. now destruct (emit rest). Qed.

(** X9.  Unless [numquery] is -1, the report is written in full, all
    fourteen fields in the order of the source, exactly when [numquery] is
    not 0; with [numquery = 0] it stops with a division by zero after its
    first eight fields, whatever the totals are. *)
Theorem report_complete_iff (idxtime : spec_float)
  (graphsize objsize numquery : Z) (t : totals)
  (Hnot : numquery <> -1) :
  (snd (report idxtime graphsize objsize numquery t) = None <-> numquery <> 0) /\
  (numquery <> 0 ->
   map fst (fst (report idxtime graphsize objsize numquery t)) = labels) /\
  (numquery = 0 ->
   snd (report idxtime graphsize objsize numquery t) = Some DivideByZero /\
   map fst (fst (report idxtime graphsize objsize numquery t)) =
     firstn 8 labels).
Proof.
  destruct (Z.eq_dec numquery 0) as [->|Hnz].
  - split; [|split].
    + split; [discriminate | congruence].
    + congruence.
    + intros _. split; reflexivity.
  - assert (Hrep : snd (report idxtime graphsize objsize numquery t) = None /\
             map fst (fst (report idxtime graphsize objsize numquery t)) = labels).
    { unfold report. rewrite !int_avg_nonzero by assumption.
      split; reflexivity. }
    destruct Hrep as [Hsnd Hfst].
    split; [|split].
    + split; [intros _; assumption | intros _; assumption].
    + intros _. assumption.
    + congruence.
Qed.

Lemma report_complete_iff_witness :
  snd (report (F32.of_int 1) 100 32 (-3)
         (mk_totals (F32.of_int 3) 7 9 9 9 9 9 9 9 9)) = None.
Proof.
  apply (proj1 (@report_complete_iff (F32.of_int 1) 100 32 (-3)
                  (mk_totals (F32.of_int 3) 7 9 9 9 9 9 9 9 9) ltac:(lia))).
  lia.
Defined.

Section Run.
Variable MAXQUERY : Z.
Variable rand : nat -> Z.
Variable indeterminate : Z.
Variable getNode : Z -> option Node.
Variable world : Type.
Variable groupRangeSearch :
  world -> SpatialMapping -> list Z -> list spec_float -> Z -> Z -> Z ->
  search_outcome * world.
Variable graph_diameter : world -> spec_float * list PageId * world.

(** X7.  In every run that completes, the object file was loaded to its
    end before the first query, with [objsize] 16 times the size of the
    index; the run made exactly [numquery] queries, each one a block of
    clean, draw, search and six estimator calls (none for a [numquery] of
    zero or less); and the report carries that [objsize] and [numquery]. *)
Theorem main_completed_run (fuel : nat) (w0 : world) (graphsize nodecnt : Z)
  (idxtime : spec_float) (objfile : list ascii) (numquery numsrc : Z)
  (range : spec_float) (log : list event)
  (rep : list (string * value) * option fault)
  (Hdone : main MAXQUERY rand indeterminate getNode groupRangeSearch
             graph_diameter fuel w0 graphsize nodecnt idxtime objfile
             numquery numsrc range = Done (log, rep)) :
  exists objsize smap,
    load_objects indeterminate getNode fuel (open objfile) 0 [] =
      Done (objsize, smap) /\
    objsize = wrap32 (16 * Z.of_nat (length smap)) /\
    query_blocks log /\
    pagelru_calls log = (6 * Z.to_nat numquery)%nat /\
    firstn 4 (fst rep) =
      [ ("idxtime:,", VFloat idxtime); (",graphsize:,", VInt graphsize);
        (",objsize:,", VInt objsize); (",#query:,", VInt numquery) ]%string.
Proof.
  unfold main in Hdone.
  destruct (load_objects indeterminate getNode fuel (open objfile) 0 [])
    as [[objsize smap]| |] eqn:Hload; try discriminate Hdone.
  cbn [bind] in Hdone.
  destruct (graph_diameter w0) as [[diameter history] w1].
  destruct (run_queries MAXQUERY rand groupRangeSearch fuel (Z.to_nat numquery)
              smap numsrc range diameter nodecnt
              (mk_machine w1 history 0 totals_init []))
    as [m| |] eqn:Hrun; try discriminate Hdone.
  cbn [bind] in Hdone. inversion Hdone; subst log rep. clear Hdone.
  exists objsize, smap. split; [reflexivity|].
  pose proof Hload as Hsize. rewrite <- wrap32_0 in Hsize.
  apply load_objects_tracks_size in Hsize.
  destruct Hsize as (added & Hsmap & Hsize & _). cbn [app] in Hsmap. subst added.
  split; [exact Hsize|].
  apply run_queries_blocks in Hrun.
  destruct Hrun as (added & Hlog & Hblocks & Hcalls). cbn [m_log app] in Hlog.
  rewrite Hlog. split; [assumption|]. split; [assumption|].
  unfold report. rewrite !emit_done. reflexivity.
Qed.

(** X8.  With a negative [numquery] no query is made and the report is
    written in full: nothing is logged, and each of the six per-capacity
    averages is the quotient of 0 by [numquery], which is 0. *)
Theorem negative_query_count (fuel : nat) (w0 : world)
  (graphsize nodecnt : Z) (idxtime : spec_float) (objfile : list ascii)
  (numquery numsrc : Z) (range : spec_float) (objsize : Z)
  (smap : SpatialMapping)
  (Hload : load_objects indeterminate getNode fuel (open objfile) 0 [] =
           Done (objsize, smap))
  (Hneg : numquery < 0) :
  main MAXQUERY rand indeterminate getNode groupRangeSearch graph_diameter
    fuel w0 graphsize nodecnt idxtime objfile numquery numsrc range =
  Done ([],
        ([ ("idxtime:,", VFloat idxtime);
           (",graphsize:,", VInt graphsize);
           (",objsize:,", VInt objsize);
           (",#query:,", VInt numquery);
           (",qtime:,",
            VFloat (F32.div (S754_zero false) (F32.of_int numquery)));
           (",#res:,",
            VDouble (F64.div (S754_zero false) (F64.of_int numquery)));
           (",node:,",
            VDouble (F64.div (S754_zero false) (F64.of_int numquery)));
           (",edge:,",
            VDouble (F64.div (S754_zero false) (F64.of_int numquery)));
           (",lru1:,", VInt 0); (",lru10:,", VInt 0); (",lru20:,", VInt 0);
           (",lru30:,", VInt 0); (",lru40:,", VInt 0); (",lru50:,", VInt 0)
         ]%string,
         None)).
Proof.
  unfold main. rewrite Hload. cbn [bind].
  destruct (graph_diameter w0) as [[diameter history] w1].
  replace (Z.to_nat numquery) with 0%nat by lia.
  cbn [run_queries bind m_log m_totals].
  unfold report. cbn [totals_init totaltime resultsize totalnodeaccess
    totaledgeaccess totallru1 totallru10 totallru20 totallru30 totallru40
    totallru50].
  rewrite !int_avg_of_zero by lia. reflexivity.
Qed.

End Run.

Lemma main_completed_run_witness :
  pagelru_calls
    (query_block [7; 8; 9] [345; 264; 183; 334; 252]
       (repeat (F32.of_int 5) 5) [5; 4; 2; 5; 3; 5; 4; 2; 5; 3]) =
  (6 * Z.to_nat 1)%nat.
Proof.
  destruct (@main_completed_run Setting.MAXQUERY Setting.rand 0
              Setting.getNode unit Setting.groupRangeSearch
              Setting.graph_diameter 10 tt 100 1000 (F32.of_int 1)
              (list_ascii_of_string "3 101 7 102") 1 5 F32.tenth
              (query_block [7; 8; 9] [345; 264; 183; 334; 252]
                 (repeat (F32.of_int 5) 5) [5; 4; 2; 5; 3; 5; 4; 2; 5; 3])
              (report (F32.of_int 1) 100 32 1
                 (mk_totals (F32.of_int 1) 0 0 6 6 6 6 6 5 0)))
    as (objsize & smap & _ & _ & _ & Hcalls & _).
  - vm_compute. reflexivity.
  - exact Hcalls.
Defined.

Lemma negative_query_count_witness :
  exists rep,
    main Setting.MAXQUERY Setting.rand 0 Setting.getNode
      Setting.groupRangeSearch Setting.graph_diameter 10 tt 100 1000
      (F32.of_int 1) (list_ascii_of_string "3 101 7 102") (-2) 5 F32.tenth =
    Done ([], (rep, None)).
Proof.
  eexists.
  apply (@negative_query_count Setting.MAXQUERY Setting.rand 0
           Setting.getNode unit Setting.groupRangeSearch
           Setting.graph_diameter 10 tt 100 1000 (F32.of_int 1)
           (list_ascii_of_string "3 101 7 102") (-2) 5 F32.tenth 32
           [mk_object 101 3 (F32.of_int 3) (F32.of_int 6);
            mk_object 102 7 (F32.of_int 7) (F32.of_int 14)]).
  - vm_compute. reflexivity.
  - lia.
Defined.

End RunMore.
